(** * Watch-Finder: streaming-availability resolution pipeline

    A shallow embedding of the two JavaScript sources of the repository:

    - [script.js], the browser script: [displayResults] (grouping the
      per-country offers by provider and sorting them), [getCountryName],
      [addDropdownListener] / [updateDropdownContent] (lazy per-tag
      enrichment) and the client side [scrapeTmdbWatchPage];
    - the Azure function ([module.exports] and the server side
      [scrapeTmdbWatchPage], in its direct and its proxied variant).

    Conventions.  A JavaScript string is a [string]: one [ascii] per code
    unit, which covers the code units below 256; case mapping is modelled
    on the ASCII letters and leaves every other code unit as it is, which
    is exact on ASCII strings (the country codes the browser script maps
    to upper case) and does not change whether a lower-cased heading
    equals "stream".  A JavaScript [Set] is the list of its elements in
    insertion order.  A plain object is the list of its own properties in
    creation order; for an object keyed by numbers [Object.values] follows
    the own-property order of ECMAScript (array-index keys first, in
    ascending numeric order, then the other keys in creation order), and
    an object keyed by strings is taken to have no array-index key, so
    that its keys are listed in creation order.
    Exceptions are modelled with a sum type, network access with an
    explicit oracle and a log of the requests issued. *)

From Stdlib Require Import List String Ascii Bool Arith ZArith NArith Lia.
From Stdlib Require Import Sorting.Sorted Sorting.Permutation.
From Stdlib Require Import Structures.OrderedTypeEx.
From Stdlib Require Import Numbers.DecimalString.
Import ListNotations.

Local Open Scope string_scope.
Local Open Scope list_scope.
Local Open Scope nat_scope.

(* ================================================================== *)
(** * Part I: the model                                                *)
(* ================================================================== *)

(** ** JavaScript built-ins used by the sources *)

Module Js.

(** [String.prototype.toUpperCase] / [toLowerCase] on ASCII letters. *)
Definition upper_char (c : ascii) : ascii :=
  let n := nat_of_ascii c in
  if (97 <=? n) && (n <=? 122) then ascii_of_nat (n - 32) else c.

Definition lower_char (c : ascii) : ascii :=
  let n := nat_of_ascii c in
  if (65 <=? n) && (n <=? 90) then ascii_of_nat (n + 32) else c.

Fixpoint toUpperCase (s : string) : string :=
  match s with
  | EmptyString => EmptyString
  | String c s' => String (upper_char c) (toUpperCase s')
  end.

Fixpoint toLowerCase (s : string) : string :=
  match s with
  | EmptyString => EmptyString
  | String c s' => String (lower_char c) (toLowerCase s')
  end.

(** White space of [String.prototype.trim] among the code units below 256:
    TAB, LF, VT, FF, CR, SPACE and NBSP. *)
Definition is_white_space (c : ascii) : bool :=
  let n := nat_of_ascii c in
  ((9 <=? n) && (n <=? 13)) || (n =? 32) || (n =? 160).

Fixpoint trimStart (s : string) : string :=
  match s with
  | EmptyString => EmptyString
  | String c s' => if is_white_space c then trimStart s' else s
  end.

Fixpoint trimEnd (s : string) : string :=
  match s with
  | EmptyString => EmptyString
  | String c s' =>
      match trimEnd s' with
      | EmptyString => if is_white_space c then EmptyString
                       else String c EmptyString
      | r => String c r
      end
  end.

Definition trim (s : string) : string := trimEnd (trimStart s).

(** [s.includes(sub)]. *)
Fixpoint includes (sub s : string) : bool :=
  prefix sub s ||
  match s with
  | EmptyString => false
  | String _ s' => includes sub s'
  end.

(** Drop the first [n] code units. *)
Fixpoint drop (n : nat) (s : string) : string :=
  match n, s with
  | O, _ => s
  | S n', String _ s' => drop n' s'
  | S _, EmptyString => EmptyString
  end.

(** A [Set]: elements in insertion order, [add] keeps the first insertion. *)
Section JsSet.
Context {A : Type} (eqb : A -> A -> bool).

Definition Set_has (x : A) (s : list A) : bool := existsb (eqb x) s.

Definition Set_add (x : A) (s : list A) : list A :=
  if Set_has x s then s else s ++ [x].

End JsSet.

Definition Set_size {A : Type} (s : list A) : nat := List.length s.
Definition Array_from {A : Type} (s : list A) : list A := s.

(** [Array.prototype.sort(cmp)].  The sort is stable, and with a consistent
    comparator its result is the unique stable arrangement in which [a]
    precedes [b] whenever [cmp a b < 0]; it is computed here by insertion,
    each element being placed before the first later element that does not
    have to precede it. *)
Section JsSort.
Context {A : Type} (cmp : A -> A -> Z).

Fixpoint sort_insert (x : A) (l : list A) : list A :=
  match l with
  | [] => [x]
  | y :: l' => if (0 <? cmp x y)%Z then y :: sort_insert x l' else x :: l
  end.

Definition Array_sort (l : list A) : list A := fold_right sort_insert [] l.

End JsSort.

(** The order of [Array.prototype.sort()] without a comparator, and a
    possible [localeCompare]: strings compared code unit by code unit. *)
Definition codeUnitCompare (a b : string) : Z :=
  match String.compare a b with
  | Lt => (-1)%Z
  | Eq => 0%Z
  | Gt => 1%Z
  end.

(** Truthiness of a value that is a string, [null] or [undefined]. *)
Definition truthy (v : option string) : bool :=
  match v with
  | Some s => negb (s =? "")%string
  | None => false
  end.

(** [s.replace(pat, '')] for a string pattern: the first occurrence of
    [pat] is removed. *)
Fixpoint remove_first (pat s : string) : string :=
  if prefix pat s then drop (String.length pat) s
  else
    match s with
    | EmptyString => EmptyString
    | String c s' => String c (remove_first pat s')
    end.

(** Own properties of an object whose keys are the decimal strings of
    non-negative integers, kept as the numbers themselves.  A key is an
    array index when it is below 2^32 - 1; [Object.values] and
    [Object.keys] list the array-index keys first, in ascending numeric
    order, and then the remaining keys in creation order. *)
Section NumKeyed.
Context {V : Type}.

Definition is_array_index (k : N) : bool := (k <? 4294967295)%N.

Fixpoint num_get (o : list (N * V)) (k : N) : option V :=
  match o with
  | [] => None
  | (k', v) :: o' => if (k' =? k)%N then Some v else num_get o' k
  end.

Fixpoint num_update (o : list (N * V)) (k : N) (f : V -> V) : list (N * V) :=
  match o with
  | [] => []
  | (k', v) :: o' =>
      if (k' =? k)%N then (k', f v) :: o' else (k', v) :: num_update o' k f
  end.

Fixpoint key_insert (p : N * V) (l : list (N * V)) : list (N * V) :=
  match l with
  | [] => [p]
  | q :: l' => if (fst p <? fst q)%N then p :: l else q :: key_insert p l'
  end.

Definition Object_entries (o : list (N * V)) : list (N * V) :=
  fold_right key_insert [] (filter (fun p => is_array_index (fst p)) o)
  ++ filter (fun p => negb (is_array_index (fst p))) o.

Definition Object_values (o : list (N * V)) : list V :=
  map snd (Object_entries o).

End NumKeyed.

(** Own properties of an object with string keys that are not array
    indices (country codes, provider names): creation order.  A key that
    is the decimal string of an array index, which JavaScript would list
    before the others, is outside this model; the properties below that
    use [Object_keys] on provider names do not depend on the order. *)
Section StrKeyed.
Context {V : Type}.

Fixpoint str_get (o : list (string * V)) (k : string) : option V :=
  match o with
  | [] => None
  | (k', v) :: o' => if (k' =? k)%string then Some v else str_get o' k
  end.

Fixpoint str_update (o : list (string * V)) (k : string) (f : V -> V)
  : list (string * V) :=
  match o with
  | [] => []
  | (k', v) :: o' =>
      if (k' =? k)%string then (k', f v) :: o'
      else (k', v) :: str_update o' k f
  end.

Definition Object_keys (o : list (string * V)) : list string := map fst o.

End StrKeyed.

End Js.

(** ** script.js: [displayResults], [getCountryName] *)

Module Aggregator.
Import Js.

(** One element of a [flatrate] array of the watch/providers response.
    [provider_id] is a JSON number, a non-negative integer; used as a
    property key it becomes its decimal string. *)
Record Offer := mkOffer {
  provider_id : N;
  provider_name : string;
  logo_path : string
}.

(** The value stored under a country code.  Only [flatrate] is read; it is
    [None] when the country has no such key. *)
Record CountryOffers := mkCountryOffers {
  flatrate : option (list Offer)
}.

(** [providersData.results]: an object keyed by country code. *)
Definition RawAvailability := list (string * CountryOffers).

(** A value of [providerMap]. *)
Record ProviderEntry := mkEntry {
  name : string;
  logo : string;
  countries : list string
}.

Definition add_country (c : string) (e : ProviderEntry) : ProviderEntry :=
  mkEntry (name e) (logo e) (Set_add String.eqb c (countries e)).

(** Lines 217-222: the body of the inner [forEach]. *)
Definition add_offer (countryCode : string)
  (providerMap : list (N * ProviderEntry)) (provider : Offer)
  : list (N * ProviderEntry) :=
  let providerMap1 :=
    match num_get providerMap (provider_id provider) with
    | Some _ => providerMap
    | None =>
        providerMap ++
        [(provider_id provider,
          mkEntry (provider_name provider) (logo_path provider) [])]
    end in
  num_update providerMap1 (provider_id provider) (add_country countryCode).

(** Lines 214-224: the body of the outer [forEach], for one key. *)
Definition add_country_offers (allProviders : RawAvailability)
  (providerMap : list (N * ProviderEntry)) (countryCode : string)
  : list (N * ProviderEntry) :=
  match str_get allProviders countryCode with
  | Some offers =>
      match flatrate offers with
      | Some l => fold_left (add_offer countryCode) l providerMap
      | None => providerMap
      end
  | None => providerMap
  end.

(** Lines 213-224. *)
Definition groupByProvider (allProviders : RawAvailability)
  : list (N * ProviderEntry) :=
  fold_left (add_country_offers allProviders) (Object_keys allProviders) [].

(** Line 232: [(a, b) => b.countries.size - a.countries.size]. *)
Definition by_country_count (a b : ProviderEntry) : Z :=
  (Z.of_nat (Set_size (countries b)) - Z.of_nat (Set_size (countries a)))%Z.

(** Lines 207-232: the provider sequence that is rendered; it is empty on
    both early returns ([allProviders] missing or without keys, and an
    empty [providerMap]). *)
Definition sortedProviders (allProviders : option RawAvailability)
  : list ProviderEntry :=
  match allProviders with
  | None => []
  | Some raw =>
      if (List.length (Object_keys raw) =? 0)%nat then []
      else
        let providerMap := groupByProvider raw in
        if (List.length providerMap =? 0)%nat then []
        else Array_sort by_country_count (Object_values providerMap)
  end.

(** The same sequence with each entry still paired with its key in
    [providerMap]; [Object.values] forgets the keys. *)
Definition sortedProviderEntries (allProviders : option RawAvailability)
  : list (N * ProviderEntry) :=
  match allProviders with
  | None => []
  | Some raw =>
      if (List.length (Object_keys raw) =? 0)%nat then []
      else
        let providerMap := groupByProvider raw in
        if (List.length providerMap =? 0)%nat then []
        else Array_sort (fun a b => by_country_count (snd a) (snd b))
                        (Object_entries providerMap)
  end.

(** The (country, provider id) pairs of the flatrate lists, in traversal
    order and with repetitions. *)
Definition offer_pairs (raw : RawAvailability) : list (string * N) :=
  flat_map (fun ce =>
    match flatrate (snd ce) with
    | Some l => map (fun p => (fst ce, provider_id p)) l
    | None => []
    end) raw.

Definition pair_dec (x y : string * N) : {x = y} + {x <> y}.
Proof. decide equality; [apply N.eq_dec | apply string_dec]. Defined.

(** Provider ids in the order in which the traversal first meets them. *)
Fixpoint first_seen (l seen : list N) : list N :=
  match l with
  | [] => []
  | k :: l' =>
      if existsb (N.eqb k) seen then first_seen l' seen
      else k :: first_seen l' (k :: seen)
  end.

Definition encounter_order (raw : RawAvailability) : list N :=
  first_seen (map snd (offer_pairs raw)) [].

Fixpoint position (k : N) (l : list N) : nat :=
  match l with
  | [] => 0
  | k' :: l' => if (k' =? k)%N then 0 else S (position k l')
  end.

(** The flatrate offers in traversal order, each with its country. *)
Definition flat_offers (raw : RawAvailability) : list (string * Offer) :=
  flat_map (fun ce =>
    match flatrate (snd ce) with
    | Some l => map (pair (fst ce)) l
    | None => []
    end) raw.

Definition add_pair (providerMap : list (N * ProviderEntry))
  (cp : string * Offer) : list (N * ProviderEntry) :=
  add_offer (fst cp) providerMap (snd cp).

(** Sum of [countries.size] over the values of a [providerMap]. *)
Definition total (providerMap : list (N * ProviderEntry)) : nat :=
  list_sum (map (fun p => Set_size (countries (snd p))) providerMap).

(** [providerMap[k].countries.has(c)], false without such an entry. *)
Definition has (providerMap : list (N * ProviderEntry)) (k : N) (c : string)
  : bool :=
  match num_get providerMap k with
  | Some e => Set_has String.eqb c (countries e)
  | None => false
  end.

(** The invariant of the traversal: [providerMap] holds exactly the pairs
    seen so far, each once. *)
Definition tracks (pm : list (N * ProviderEntry)) (ps : list (string * N))
  : Prop :=
  (forall k c, has pm k c = true <-> In (c, k) ps) /\
  total pm = List.length (nodup pair_dec ps).

(** [a] occurs at an earlier position than [b]. *)
Definition Before {A : Type} (a b : A) (l : list A) : Prop :=
  exists l1 l2 l3, l = l1 ++ a :: l2 ++ b :: l3.

(** Ties in the output follow the order of first encounter. *)
Definition ties_follow_encounter_order (raw : RawAvailability) : Prop :=
  forall a b,
    Before a b (sortedProviderEntries (Some raw)) ->
    Set_size (countries (snd a)) = Set_size (countries (snd b)) ->
    position (fst a) (encounter_order raw)
    < position (fst b) (encounter_order raw).

(** Lines 377-385.  [displayNamesOf] stands for
    [new Intl.DisplayNames(['en'], {type: 'region'}).of]; it is [None]
    when the [try] block throws. *)
Definition getCountryName (displayNamesOf : string -> option string)
  (code : string) : string :=
  match displayNamesOf (toUpperCase code) with
  | Some n => n
  | None => toUpperCase code
  end.

(** Line 240. *)
Definition sortedCountries (displayNamesOf : string -> option string)
  (localeCompare : string -> string -> Z) (provider : ProviderEntry)
  : list string :=
  Array_sort
    (fun a b => localeCompare (getCountryName displayNamesOf a)
                              (getCountryName displayNamesOf b))
    (Array_from (countries provider)).

(** Sample data: the scenario of the specification, an input in which two
    providers tie and a table of region names. *)
Definition offer (i : N) (n : string) : Offer := mkOffer i n "/logo.png".

Definition raw_scenario : RawAvailability :=
  [("US", mkCountryOffers (Some [offer 8 "Netflix"]));
   ("GB", mkCountryOffers (Some [offer 8 "Netflix"]));
   ("FR", mkCountryOffers (Some [offer 9 "Disney+"]))].

Definition raw_tie : RawAvailability :=
  [("US", mkCountryOffers (Some [offer 9 "Disney+"]));
   ("FR", mkCountryOffers (Some [offer 8 "Netflix"]))].

Definition sample_names (code : string) : option string :=
  if (code =? "US")%string then Some "United States"
  else if (code =? "DE")%string then Some "Germany"
  else if (code =? "FR")%string then Some "France"
  else if (code =? "GB")%string then Some "United Kingdom"
  else None.

Definition sample_provider : ProviderEntry :=
  mkEntry "Netflix" "/logo.png" ["US"; "DE"; "FR"; "ZZ"].

End Aggregator.

(** ** The parsed document (what [new JSDOM(html).window.document] gives)

    A tree of elements and text nodes, queried with the selectors the
    sources use: compound selectors made of a type, classes and an
    attribute-substring test, combined with the descendant, child and
    next-sibling combinators.

    The model covers a document in no-quirks mode (parsed from a page that
    starts with a doctype), where a class selector compares the class
    names case-sensitively, and a tree of HTML elements: an anchor inside
    SVG or MathML content, which has no [title] property, is not
    represented.  The properties below are stated over what the selectors
    select and do not rest on how a class name is compared. *)

Module Dom.
Import Js.

#[warnings="-register-all"]
Inductive Node :=
| Element (localName : string) (attributes : list (string * string))
          (childNodes : list Node)
| Text (data : string).

(** An element in its context: the element with its preceding element
    siblings (nearest first), then the same for its parent, and so on up to
    the root. *)
Definition Frame : Type := Node * list Node.
Definition Path : Type := list Frame.

Definition getAttribute (n : Node) (a : string) : option string :=
  match n with
  | Element _ attrs _ => str_get attrs a
  | Text _ => None
  end.

Definition localNameOf (n : Node) : string :=
  match n with
  | Element t _ _ => t
  | Text _ => ""
  end.

Definition is_element (n : Node) : bool :=
  match n with
  | Element _ _ _ => true
  | Text _ => false
  end.

(** ASCII white space, the separators of a [class] attribute. *)
Definition is_ascii_whitespace (c : ascii) : bool :=
  let n := nat_of_ascii c in
  (n =? 9) || (n =? 10) || (n =? 12) || (n =? 13) || (n =? 32).

Fixpoint tokens (cur : string) (s : string) : list string :=
  match s with
  | EmptyString => if (cur =? "")%string then [] else [cur]
  | String c s' =>
      if is_ascii_whitespace c
      then (if (cur =? "")%string then tokens "" s' else cur :: tokens "" s')
      else tokens (cur ++ String c "")%string s'
  end.

Definition classList (n : Node) : list string :=
  match getAttribute n "class" with
  | Some v => tokens "" v
  | None => []
  end.

Definition classList_contains (n : Node) (c : string) : bool :=
  existsb (String.eqb c) (classList n).

Fixpoint textContent (n : Node) : string :=
  match n with
  | Text d => d
  | Element _ _ cs =>
      (fix go (l : list Node) : string :=
         match l with
         | [] => ""
         | c :: l' => (textContent c ++ go l')%string
         end) cs
  end.

(** The elements of the subtree of [n], in document order, each with its
    context; [up] is the path of the parent of [n] and [prev] the element
    siblings before [n]. *)
Fixpoint subtree (up : Path) (prev : list Node) (n : Node) {struct n}
  : list Path :=
  match n with
  | Text _ => []
  | Element _ _ cs =>
      let me := (n, prev) :: up in
      me ::
      (fix walk (before : list Node) (l : list Node) {struct l} : list Path :=
         match l with
         | [] => []
         | c :: l' =>
             subtree me before c ++
             walk (if is_element c then c :: before else before) l'
         end) [] cs
  end.

Definition descendants (p : Path) : list Path :=
  match p with
  | (n, prev) :: up => tl (subtree up prev n)
  | [] => []
  end.

Inductive Simple :=
| Tag (t : string)
| Class (c : string)
| AttrContains (a v : string).

Inductive Selector :=
| Compound (ss : list Simple)
| Descendant (anc : Selector) (ss : list Simple)
| Child (par : Selector) (ss : list Simple)
| Adjacent (prv : Selector) (ss : list Simple).

Definition matches_simple (n : Node) (s : Simple) : bool :=
  match s with
  | Tag t => (localNameOf n =? t)%string
  | Class c => classList_contains n c
  | AttrContains a v =>
      match getAttribute n a with
      | Some x => includes v x
      | None => false
      end
  end.

Fixpoint suffixes (p : Path) : list Path :=
  match p with
  | [] => []
  | _ :: p' => p :: suffixes p'
  end.

Fixpoint matches (s : Selector) (p : Path) {struct s} : bool :=
  match p with
  | [] => false
  | (n, prev) :: up =>
      match s with
      | Compound ss => forallb (matches_simple n) ss
      | Descendant anc ss =>
          forallb (matches_simple n) ss && existsb (matches anc) (suffixes up)
      | Child par ss => forallb (matches_simple n) ss && matches par up
      | Adjacent prv ss =>
          forallb (matches_simple n) ss &&
          match prev with
          | sib :: prev' => matches prv ((sib, prev') :: up)
          | [] => false
          end
      end
  end.

(** [element.querySelectorAll(s)] / [element.querySelector(s)]: the
    descendants of the element that match, the selector being evaluated
    against the whole document. *)
Definition querySelectorAll (scope : Path) (s : Selector) : list Path :=
  filter (matches s) (descendants scope).

Definition querySelector (scope : Path) (s : Selector) : option Path :=
  hd_error (querySelectorAll scope s).

(** [document.querySelectorAll(s)] / [document.querySelector(s)], the
    document being given by its root element. *)
Definition document_querySelectorAll (root : Node) (s : Selector)
  : list Path :=
  filter (matches s) (subtree [] [] root).

Definition document_querySelector (root : Node) (s : Selector)
  : option Path :=
  hd_error (document_querySelectorAll root s).

Definition node_of (p : Path) : Node :=
  match p with
  | (n, _) :: _ => n
  | [] => Text ""
  end.

(** [link.title]: the attribute, or the empty string. *)
Definition title (p : Path) : string :=
  match getAttribute (node_of p) "title" with
  | Some t => t
  | None => ""
  end.

End Dom.

(** ** Exceptions and network access *)

Module Effects.

Inductive JsError :=
| TypeError
| SyntaxError
| FetchRejected
| StatusError (status : Z).

Inductive Outcome (A : Type) :=
| Return (a : A)
| Throw (e : JsError).
Arguments Return {A} a.
Arguments Throw {A} e.

(** A request issued with [fetch]. *)
Record Request := mkRequest {
  req_url : string;
  req_headers : list (string * string)
}.

Record Response := mkResponse {
  ok : bool;
  status : Z;
  text : string
}.

(** What a [fetch] promise settles to. *)
Inductive FetchResult :=
| Rejected
| Fulfilled (r : Response).

(** The environment of the sources: the network, the HTML parser behind
    [new JSDOM], the URL parser behind [a.href], [JSON.parse] behind
    [response.json()] and the serializer of [URLSearchParams]. *)
Class Platform := {
  Json : Type;
  network : Request -> FetchResult;
  parseHTML : string -> Dom.Node;
  resolveHref : string -> string;
  JSON_parse : string -> option Json;
  URLSearchParams_toString : list (string * string) -> string
}.

(** A computation that may throw and that issues requests: it takes the
    log of the requests issued so far and returns the extended log. *)
Definition M (A : Type) : Type := list Request -> Outcome A * list Request.

Definition ret {A : Type} (a : A) : M A := fun log => (Return a, log).

Definition throw {A : Type} (e : JsError) : M A := fun log => (Throw e, log).

Definition bind {A B : Type} (m : M A) (k : A -> M B) : M B :=
  fun log =>
    match m log with
    | (Return a, log') => k a log'
    | (Throw e, log') => (Throw e, log')
    end.

(** [try { m } catch (error) { h error }]. *)
Definition try_catch {A : Type} (m : M A) (h : JsError -> M A) : M A :=
  fun log =>
    match m log with
    | (Return a, log') => (Return a, log')
    | (Throw e, log') => h e log'
    end.

Definition lift {A : Type} (o : Outcome A) : M A := fun log => (o, log).

(** [await fetch(...)]: the request is logged; a rejected promise throws. *)
Definition fetch `{Platform} (r : Request) : M Response :=
  fun log =>
    match network r with
    | Rejected => (Throw FetchRejected, log ++ [r])
    | Fulfilled resp => (Return resp, log ++ [r])
    end.

(** [array.forEach(f)] for a callback that updates an accumulator and may
    throw: the first exception ends the loop. *)
Fixpoint forEach {X S : Type} (f : X -> S -> Outcome S) (l : list X) (s : S)
  : Outcome S :=
  match l with
  | [] => Return s
  | x :: l' =>
      match f x s with
      | Return s' => forEach f l' s'
      | Throw e => Throw e
      end
  end.

End Effects.

Notation "x <- m ;; k" := (Effects.bind m (fun x => k))
  (at level 61, m at next level, right associativity).

(** ** The relay: server side [scrapeTmdbWatchPage] *)

Module Extractor.
Import Js Dom Effects.

Inductive Quality := Q4K | HD | SD.

Definition Quality_eqb (a b : Quality) : bool :=
  match a, b with
  | Q4K, Q4K | HD, HD | SD, SD => true
  | _, _ => false
  end.

(** The string a tier is stored and sent as. *)
Definition label (q : Quality) : string :=
  match q with
  | Q4K => "4K"
  | HD => "HD"
  | SD => "SD"
  end.

(** The class that marks a tier on a list item. *)
Definition marker (q : Quality) : string :=
  match q with
  | Q4K => "ott_filter_4k"
  | HD => "ott_filter_hd"
  | SD => "ott_filter_sd"
  end.

(** [providersInfo]: own properties, provider name to [stream]. *)
Definition ProvidersInfo : Type := list (string * list Quality).

Record ScrapeResult := mkResult {
  justWatchUrl : option string;
  providersInfo : ProvidersInfo
}.

Definition emptyResult : ScrapeResult := mkResult None [].

(** Line terminators, which [.] does not match. *)
Definition is_line_terminator (c : ascii) : bool :=
  let n := nat_of_ascii c in (n =? 10) || (n =? 13).

Fixpoint no_line_terminator (s : string) : bool :=
  match s with
  | EmptyString => true
  | String c s' => negb (is_line_terminator c) && no_line_terminator s'
  end.

(** Line 110, [link.title.match(re)], as the capture group.  The pattern
    [re] is the literal "on " followed by a greedy group of characters
    other than line terminators and by the end of the input: the match
    starts at the leftmost "on " that no line terminator follows, and the
    group is the rest of the string. *)
Fixpoint match_on (s : string) : option string :=
  if prefix "on " s && no_line_terminator (drop 3 s) then Some (drop 3 s)
  else
    match s with
    | EmptyString => None
    | String _ s' => match_on s'
    end.

(** Names that every plain object inherits from [Object.prototype]; each
    of them reads as a truthy value that has no [stream]. *)
Definition Object_prototype_names : list string :=
  ["constructor"; "__defineGetter__"; "__defineSetter__"; "hasOwnProperty";
   "__lookupGetter__"; "__lookupSetter__"; "isPrototypeOf";
   "propertyIsEnumerable"; "toString"; "valueOf"; "__proto__";
   "toLocaleString"].

(** [!!providersInfo[providerName]]. *)
Definition truthy_at (info : ProvidersInfo) (providerName : string) : bool :=
  match str_get info providerName with
  | Some _ => true
  | None => existsb (String.eqb providerName) Object_prototype_names
  end.

(** [providersInfo[providerName].stream.add(q)]. *)
Definition stream_add (providerName : string) (q : Quality)
  (info : ProvidersInfo) : Outcome ProvidersInfo :=
  match str_get info providerName with
  | Some _ => Return (str_update info providerName (Set_add Quality_eqb q))
  | None => Throw TypeError
  end.

(** Lines 119-121, for one tier. *)
Definition add_if_marked (li : Path) (providerName : string) (q : Quality)
  (info : ProvidersInfo) : Outcome ProvidersInfo :=
  if classList_contains (node_of li) (marker q)
  then stream_add providerName q info
  else Return info.

(** Lines 106-112: the provider name of a list item, [None] on each of
    the early returns. *)
Definition providerNameOf (li : Path) : option string :=
  match querySelector li (Compound [Tag "a"]) with
  | None => None
  | Some link =>
      if (title link =? "")%string then None
      else
        match match_on (title link) with
        | None => None
        | Some providerName =>
            if (providerName =? "")%string then None else Some providerName
        end
  end.

(** Lines 105-122: the callback of [offerElements.forEach]. *)
Definition processOffer (li : Path) (info : ProvidersInfo)
  : Outcome ProvidersInfo :=
  match providerNameOf li with
  | None => Return info
  | Some providerName =>
      let info1 :=
        if truthy_at info providerName then info
        else info ++ [(providerName, [])] in
      forEach (add_if_marked li providerName) [Q4K; HD; SD] info1
  end.

(** The tiers marked on a list item, in the order of the three tests. *)
Definition li_markers (li : Path) : list Quality :=
  filter (fun q => classList_contains (node_of li) (marker q)) [Q4K; HD; SD].

(** Every [stream] of a [providersInfo] is free of duplicates. *)
Definition streams_NoDup (info : ProvidersInfo) : Prop :=
  forall name stream, In (name, stream) info -> NoDup stream.

(** Whether a provider section is the one that is processed: it has a
    heading, and the heading reads "stream" once trimmed and in lower
    case. *)
Definition stream_heading (section : Path) : bool :=
  match querySelector section (Compound [Tag "h3"]) with
  | Some typeElement =>
      (toLowerCase (trim (textContent (node_of typeElement))) =? "stream")%string
  | None => false
  end.

(** The canonical order of the specification, SD before HD before 4K. *)
Definition rank (q : Quality) : nat :=
  match q with
  | SD => 0
  | HD => 1
  | Q4K => 2
  end.

Definition canonical (stream : list Quality) : Prop :=
  StronglySorted (fun a b => rank a < rank b) stream.

(** The provider name as the specification words it: what follows the
    last occurrence of "on ", trimmed. *)
Fixpoint after_last_on (s : string) : option string :=
  match s with
  | EmptyString => None
  | String _ s' =>
      match after_last_on s' with
      | Some r => Some r
      | None => if prefix "on " s then Some (drop 3 s) else None
      end
  end.

Definition claimed_provider_name (title : string) : option string :=
  option_map trim (after_last_on title).

(** Lines 96-123: the callback of [providerSections.forEach]. *)
Definition processSection (section : Path) (info : ProvidersInfo)
  : Outcome ProvidersInfo :=
  match querySelector section (Compound [Tag "h3"]) with
  | None => Return info
  | Some typeElement =>
      let type := toLowerCase (trim (textContent (node_of typeElement))) in
      if negb (type =? "stream")%string then Return info
      else
        forEach processOffer
          (querySelectorAll section
             (Child (Compound [Tag "ul"; Class "providers"]) [Tag "li"]))
          info
  end.

Definition justWatchSelector : Selector :=
  Descendant (Adjacent (Compound [Class "ott_title"]) [Tag "p"])
             [Tag "a"; AttrContains "href" "justwatch.com"].

(** [justWatchLinkElement.href]. *)
Definition href `{Platform} (p : Path) : string :=
  match getAttribute (node_of p) "href" with
  | Some h => resolveHref h
  | None => ""
  end.

(** Lines 85-130: from the parsed document to the result. *)
Definition extract `{Platform} (doc : Node) : Outcome ScrapeResult :=
  let justWatchLinkElement := document_querySelector doc justWatchSelector in
  let justWatchUrl := option_map href justWatchLinkElement in
  match forEach processSection
          (document_querySelectorAll doc (Compound [Class "ott_provider"])) []
  with
  | Return info => Return (mkResult justWatchUrl info)
  | Throw e => Throw e
  end.

(** The body of the [try] block, for the URL that is fetched. *)
Definition scrape_body `{Platform} (fetched : string) : M ScrapeResult :=
  response <- fetch (mkRequest fetched []) ;;
  if negb (ok response) then throw (StatusError (status response))
  else lift (extract (parseHTML (text response))).

(** Lines 76-135: the variant that fetches the URL directly. *)
Definition scrapeTmdbWatchPage `{Platform} (url : string) : M ScrapeResult :=
  try_catch (scrape_body url) (fun _ => ret emptyResult).

(** [encodeURIComponent], on code units below 256: the unreserved
    characters are kept, any other one is replaced by the escapes of the
    bytes of its UTF-8 encoding. *)
Definition hex_digit (n : nat) : ascii :=
  if n <? 10 then ascii_of_nat (48 + n) else ascii_of_nat (55 + n).

Definition percent (n : nat) : string :=
  String (ascii_of_nat 37)
    (String (hex_digit (n / 16)) (String (hex_digit (n mod 16)) "")).

Definition is_unreserved (c : ascii) : bool :=
  let n := nat_of_ascii c in
  ((65 <=? n) && (n <=? 90)) || ((97 <=? n) && (n <=? 122)) ||
  ((48 <=? n) && (n <=? 57)) ||
  existsb (Nat.eqb n) [45; 95; 46; 33; 126; 42; 39; 40; 41].

Fixpoint encodeURIComponent (s : string) : string :=
  match s with
  | EmptyString => EmptyString
  | String c s' =>
      let n := nat_of_ascii c in
      let escaped :=
        if is_unreserved c then String c ""
        else if n <? 128 then percent n
        else String.append (percent (192 + n / 64)) (percent (128 + n mod 64))
      in String.append escaped (encodeURIComponent s')
  end.

(** Lines 206-262: the variant that fetches through the CORS proxy. *)
Definition scrapeTmdbWatchPage_proxied `{Platform} (url : string)
  : M ScrapeResult :=
  let proxyUrl := ("https://corsproxy.io/?" ++ encodeURIComponent url)%string in
  try_catch (scrape_body proxyUrl) (fun _ => ret emptyResult).

(** Sample data: a platform whose network answers every request with
    [reply] and whose parser returns [page], and watch pages with one
    "Stream" section holding the given list items. *)
Definition sample_platform (page : Node) (reply : FetchResult) : Platform :=
  {| Json := string;
     network := fun _ => reply;
     parseHTML := fun _ => page;
     resolveHref := fun h => h;
     JSON_parse := fun s => Some s;
     URLSearchParams_toString := fun q =>
       String.concat "&" (map (fun kv => (fst kv ++ "=" ++ snd kv)%string) q) |}.

Definition sample_li (classes title : string) : Node :=
  Element "li" [("class", classes)]
    [Element "a" [("href", "https://click.justwatch.com/a"); ("title", title)]
       [Element "img" [("src", "/logo.jpg")] []]].

Definition sample_page (items : list Node) : Node :=
  Element "html" []
    [Element "head" [] [];
     Element "body" []
       [Element "div" [("class", "ott_title")] [Text "Foo is streaming"];
        Text " ";
        Element "p" []
          [Text "Powered by ";
           Element "a" [("href", "https://www.justwatch.com/us/movie/foo")]
             [Text "JustWatch"]];
        Element "div" [("class", "ott_provider")]
          [Element "h3" [] [Text " Stream "];
           Element "ul" [("class", "providers")] items];
        Element "div" [("class", "ott_provider")]
          [Element "h3" [] [Text "Rent"];
           Element "ul" [("class", "providers")]
             [sample_li "ott_filter_hd" "Rent Foo on Apple TV"]]]].

Definition sample_url : string :=
  "https://www.themoviedb.org/movie/27205/watch?locale=US".

Definition ok_reply : FetchResult := Fulfilled (mkResponse true 200 "<html>").
Definition blocked_reply : FetchResult :=
  Fulfilled (mkResponse false 403 "Forbidden").

(** The path of a list item taken alone. *)
Definition alone (n : Node) : Path := [(n, [])].

(** A page on which a provider is called like a property that every
    object inherits, and a platform that serves it. *)
Definition inherited_name_page : Node :=
  sample_page [sample_li "ott_filter_hd" "Watch Foo on Hulu";
               sample_li "ott_filter_hd" "Watch Foo on constructor"].

Definition inherited_name_platform : Platform :=
  sample_platform inherited_name_page ok_reply.

(** A page whose only streaming offer carries the three markers. *)
Definition three_markers_page : Node :=
  sample_page [sample_li "ott_filter_sd ott_filter_hd ott_filter_4k"
                         "Watch Foo on Hulu"].

(** A direct GET that cannot be retrieved, and the request through the
    proxy that the specification expects next. *)
Definition not_retrievable `{Platform} (url : string) : Prop :=
  network (mkRequest url []) = Rejected \/
  exists resp, network (mkRequest url []) = Fulfilled resp /\ ok resp = false.

Definition proxy_request (url : string) : Request :=
  mkRequest ("https://corsproxy.io/?" ++ encodeURIComponent url)%string [].

End Extractor.

(** ** The relay: the handler of the Azure function ([module.exports]) *)

Module Relay.
Import Js Effects Extractor.

Section Handler.
Context `{Platform}.

Inductive Body :=
| BodyText (s : string)
| BodyError (e : JsError)
| BodyJson (data : Json)
| BodyScraped (scrapedData : ScrapeResult).

(** [context.res]. *)
Record HttpResponse := mkRes {
  res_status : Z;
  res_body : Body
}.

Definition api_request (key endpoint : string)
  (query : list (string * string)) : Request :=
  let queryString :=
    remove_first ("endpoint=" ++ endpoint ++ "&")
                 (URLSearchParams_toString query) in
  mkRequest ("https://api.themoviedb.org/3/" ++ endpoint ++ "?" ++ queryString)
            [("Authorization", "Bearer " ++ key);
             ("Accept", "application/json")]%string.

(** Lines 22-43: the branch that forwards a request to the TMDB API. *)
Definition forward (key endpoint : string) (query : list (string * string))
  : M HttpResponse :=
  apiResponse <- fetch (api_request key endpoint query) ;;
  if negb (ok apiResponse) then throw (StatusError (status apiResponse))
  else
    match JSON_parse (text apiResponse) with
    | Some data => ret (mkRes 200 (BodyJson data))
    | None => throw SyntaxError
    end.

(** Lines 5-67.  [scrape] is the [scrapeTmdbWatchPage] of the variant;
    [TMDB_API_KEY] is [process.env.TMDB_API_KEY] and [query] is
    [req.query]. *)
Definition handler_with (scrape : string -> M ScrapeResult)
  (TMDB_API_KEY : option string) (query : list (string * string))
  : M HttpResponse :=
  if negb (truthy TMDB_API_KEY)
  then ret (mkRes 500
              (BodyText "Server configuration error: TMDB_API_KEY is not set."))
  else
    let key := match TMDB_API_KEY with Some k => k | None => "" end in
    let endpoint := str_get query "endpoint" in
    let urlToScrape := str_get query "url" in
    try_catch
      (if truthy endpoint then
         forward key (match endpoint with Some e => e | None => "" end) query
       else if truthy urlToScrape then
         scrapedData <-
           scrape (match urlToScrape with Some u => u | None => "" end) ;;
         ret (mkRes 200 (BodyScraped scrapedData))
       else
         ret (mkRes 400
                (BodyText "Bad Request: Please provide either an 'endpoint' or a 'url' query parameter.")))
      (fun error => ret (mkRes 500 (BodyError error))).

Definition handler := handler_with scrapeTmdbWatchPage.
Definition handler_proxied := handler_with scrapeTmdbWatchPage_proxied.

End Handler.

(** Sample data: a platform on which every request succeeds. *)
Definition relay_platform : Platform :=
  sample_platform (Dom.Text "") ok_reply.

End Relay.

(** ** script.js: the client side of the enrichment *)

Module Client.
Import Js Effects Extractor.

(** What [fetch(functionUrl)] settles to in the browser; [json] is [None]
    when [response.json()] throws. *)
Inductive RelayReply :=
| ReplyRejected
| Reply (ok : bool) (json : option ScrapeResult).

(** Lines 22-34. *)
Definition scrapeTmdbWatchPage (relay : string -> RelayReply)
  (tmdbWatchUrl : string) : ScrapeResult :=
  let functionUrl :=
    ("/api/tmdb?url=" ++ encodeURIComponent tmdbWatchUrl)%string in
  match relay functionUrl with
  | ReplyRejected => emptyResult
  | Reply ok json =>
      if negb ok then emptyResult
      else match json with
           | Some data => data
           | None => emptyResult
           end
  end.

Inductive Status := loading | loaded.

Inductive QualityView :=
| QualityLoading
| QualityNone
| QualityItems (items : list (string * list (string * string))).

(** The state of one dropdown: the [show] class, the JustWatch link
    ([dataset.status], [href], [pointer-events: none], the text of its
    [span]) and the quality container. *)
Record Dropdown := mkDropdown {
  show : bool;
  jw_status : Status;
  jw_href : string;
  jw_disabled : bool;
  jw_text : string;
  quality_status : Status;
  quality : QualityView
}.

(** Lines 274-294. *)
Definition createDropdown : Dropdown :=
  mkDropdown false loading "#" false "Loading JustWatch..." loading
             QualityLoading.

(** Line 356: the tags of one provider, each as its class and its text,
    in the order of [info.stream]. *)
Definition qualityTags (stream : list Quality) : list (string * string) :=
  map (fun q => (("quality-tag q-" ++ toLowerCase (label q))%string, label q))
      stream.

(** Lines 350-365. *)
Definition qualityItems (info : ProvidersInfo)
  : list (string * list (string * string)) :=
  let sortedProviderNames := Array_sort codeUnitCompare (Object_keys info) in
  flat_map (fun providerName =>
    match str_get info providerName with
    | Some stream =>
        if 0 <? List.length stream then [(providerName, qualityTags stream)]
        else []
    | None => []
    end) sortedProviderNames.

(** Lines 327-370. *)
Definition updateDropdownContent (dropdown : Dropdown)
  (justWatchUrl : option string) (info : ProvidersInfo) : Dropdown :=
  let hasQualityInfo := 0 <? List.length (Object_keys info) in
  let view := if hasQualityInfo then QualityItems (qualityItems info)
              else QualityNone in
  if truthy justWatchUrl then
    mkDropdown (show dropdown) loaded
               (match justWatchUrl with Some u => u | None => "" end)
               (jw_disabled dropdown) "View on JustWatch" loaded view
  else
    mkDropdown (show dropdown) loaded "#" true "JustWatch link not found"
               loaded view.

(** A clickable country tag: the index of its provider in the rendered
    sequence and its country code.  Every tag has a dropdown of its own. *)
Definition Tag : Type := nat * string.

Definition Tag_eqb (a b : Tag) : bool :=
  (fst a =? fst b) && (snd a =? snd b)%string.

(** The page of one title: the dropdowns, the enrichments in flight (the
    tag each one will update) and the watch pages requested so far. *)
Record Page := mkPage {
  dropdowns : Tag -> Dropdown;
  pending : list Tag;
  requested : list (Tag * string)
}.

Definition initial : Page := mkPage (fun _ => createDropdown) [] [].

Definition set_show (b : bool) (d : Dropdown) : Dropdown :=
  mkDropdown b (jw_status d) (jw_href d) (jw_disabled d) (jw_text d)
             (quality_status d) (quality d).

Definition set_dropdown (ds : Tag -> Dropdown) (t : Tag) (d : Dropdown)
  : Tag -> Dropdown :=
  fun t' => if Tag_eqb t t' then d else ds t'.

Definition tmdbLinkUrl (mediaType tmdbId code : string) : string :=
  ("https://www.themoviedb.org/" ++ mediaType ++ "/" ++ tmdbId
   ++ "/watch?locale=" ++ code)%string.

(** Lines 300-320: the click listener of a tag, up to the [await].  (The
    listener of the document, lines 67-77, only removes the [show] class
    of an open dropdown and is not part of the model.) *)
Definition click (mediaType tmdbId : string) (t : Tag) (p : Page) : Page :=
  let wasOpen := show (dropdowns p t) in
  let closed := fun t' => set_show false (dropdowns p t') in
  if wasOpen then mkPage closed (pending p) (requested p)
  else
    let opened := set_dropdown closed t (set_show true (closed t)) in
    match jw_status (opened t) with
    | loading =>
        mkPage opened (pending p ++ [t])
               (requested p ++ [(t, tmdbLinkUrl mediaType tmdbId (snd t))])
    | loaded => mkPage opened (pending p) (requested p)
    end.

Fixpoint remove_nth {A : Type} (i : nat) (l : list A) : list A :=
  match i, l with
  | _, [] => []
  | O, _ :: l' => l'
  | S i', x :: l' => x :: remove_nth i' l'
  end.

(** Lines 316-318: the continuation of the [await], when the enrichment at
    position [i] among those in flight settles with result [r]. *)
Definition settle (i : nat) (r : ScrapeResult) (p : Page) : Page :=
  match nth_error (pending p) i with
  | Some t =>
      mkPage (set_dropdown (dropdowns p) t
                (updateDropdownContent (dropdowns p t) (justWatchUrl r)
                                       (providersInfo r)))
             (remove_nth i (pending p)) (requested p)
  | None => p
  end.

Inductive Event :=
| Click (t : Tag)
| Settle (i : nat) (r : ScrapeResult).

Definition step (mediaType tmdbId : string) (p : Page) (e : Event) : Page :=
  match e with
  | Click t => click mediaType tmdbId t p
  | Settle i r => settle i r p
  end.

Definition run (mediaType tmdbId : string) (es : list Event) (p : Page)
  : Page :=
  fold_left (step mediaType tmdbId) es p.

(** The watch pages requested for one tag, and for one country. *)
Definition requests_of_tag (t : Tag) (p : Page) : list (Tag * string) :=
  filter (fun r => Tag_eqb t (fst r)) (requested p).

Definition requests_of_country (code : string) (p : Page)
  : list (Tag * string) :=
  filter (fun r => (snd (fst r) =? code)%string) (requested p).

(** What is shown for a tag besides the open/closed state. *)
Definition detail (d : Dropdown)
  : Status * string * bool * string * Status * QualityView :=
  (jw_status d, jw_href d, jw_disabled d, jw_text d, quality_status d,
   quality d).

(** The enrichment of a tag has completed and none is in flight for it. *)
Definition completed (t : Tag) (p : Page) : Prop :=
  jw_status (dropdowns p t) = loaded /\ ~ In t (pending p).

(** The caching property as the specification words it: within one title,
    a watch page is requested at most once per country. *)
Definition one_fetch_per_country (mediaType tmdbId : string)
  (es : list Event) : Prop :=
  forall code,
    List.length (requests_of_country code (run mediaType tmdbId es initial))
    <= 1.

(** Sample data: two tags of the same country, under two providers, and a
    scraped result. *)
Definition us_netflix : Tag := (0, "US").
Definition us_hulu : Tag := (1, "US").
Definition sample_result : ScrapeResult :=
  mkResult (Some "https://www.justwatch.com/us/movie/foo")
           [("Hulu", [Q4K; HD])].

End Client.

(** ** script.js: what [displayResults] renders *)

Module Results.
Import Js Aggregator.

(** Lines 9-11. *)
Definition JUSTWATCH_SUPPORTED_COUNTRIES : list string :=
  ["AR"; "AU"; "AT"; "BE"; "BR"; "CA"; "CL"; "CO"; "CZ"; "DK"; "EC"; "EE";
   "FI"; "FR"; "DE"; "GR"; "GT"; "HK"; "HU"; "IS"; "IN"; "ID"; "IE"; "IL";
   "IT"; "JP"; "LV"; "LT"; "MY"; "MX"; "NL"; "NZ"; "NO"; "PA"; "PE"; "PH";
   "PL"; "PT"; "RO"; "RU"; "SA"; "SG"; "SK"; "ZA"; "KR"; "ES"; "SE"; "CH";
   "TW"; "TH"; "TR"; "UA"; "AE"; "GB"; "US"].

(** The countries of a provider in the order in which a list of
    (country, offer) pairs first names them: what successive
    [countries.add] calls leave in the [Set]. *)
Definition first_occurrences (l : list string) : list string :=
  fold_left (fun s c => Set_add String.eqb c s) l [].

Definition offers_of_provider (k : N) (l : list (string * Offer))
  : list (string * Offer) :=
  filter (fun cp => (provider_id (snd cp) =? k)%N) l.

(** Lines 242-257: one country tag; it has a dropdown when the country is
    supported. *)
Record CountryTag := mkCountryTag {
  tag_code : string;
  tag_text : string;
  tag_clickable : bool;
  tag_title : string;
  tag_dropdown : option Client.Dropdown
}.

Definition countryTag (displayNamesOf : string -> option string)
  (code : string) : CountryTag :=
  let countryName := getCountryName displayNamesOf code in
  let isSupported :=
    existsb (String.eqb code) JUSTWATCH_SUPPORTED_COUNTRIES in
  mkCountryTag code countryName isSupported
    (if isSupported then ("Click for links in " ++ countryName)%string
     else ("No watch links available for " ++ countryName)%string)
    (if isSupported then Some Client.createDropdown else None).

(** Lines 234-268: one provider item; [pv_count] and [pv_noun] are the
    number and the noun of its label. *)
Record ProviderView := mkProviderView {
  pv_name : string;
  pv_logo : string;
  pv_count : nat;
  pv_noun : string;
  pv_tags : list CountryTag
}.

Definition providerView (displayNamesOf : string -> option string)
  (localeCompare : string -> string -> Z) (provider : ProviderEntry)
  : ProviderView :=
  mkProviderView (name provider) (logo provider)
    (Set_size (countries provider))
    (if Set_size (countries provider) =? 1 then "country" else "countries")
    (map (countryTag displayNamesOf)
         (sortedCountries displayNamesOf localeCompare provider)).

(** What follows the title block in the results container. *)
Inductive ResultsView :=
| NotAvailableAnywhere
| NoSubscription
| ProviderList (items : list ProviderView).

(** Lines 198-269. *)
Definition displayResults (displayNamesOf : string -> option string)
  (localeCompare : string -> string -> Z)
  (allProviders : option RawAvailability) : ResultsView :=
  match allProviders with
  | None => NotAvailableAnywhere
  | Some raw =>
      if (List.length (Object_keys raw) =? 0)%nat then NotAvailableAnywhere
      else
        let providerMap := groupByProvider raw in
        if (List.length providerMap =? 0)%nat then NoSubscription
        else
          ProviderList
            (map (providerView displayNamesOf localeCompare)
                 (Array_sort by_country_count (Object_values providerMap)))
  end.

(** [providerMap] after the offers [l]: under each provider id that
    occurs, the name and the logo of its first offer and the countries of
    its offers in order of first occurrence. *)
Definition describes (l : list (string * Offer))
  (pm : list (N * ProviderEntry)) : Prop :=
  forall k,
    num_get pm k
    = match find (fun cp => (provider_id (snd cp) =? k)%N) l with
      | Some cp =>
          Some (mkEntry (provider_name (snd cp)) (logo_path (snd cp))
                  (first_occurrences (map fst (offers_of_provider k l))))
      | None => None
      end.

Definition ids_of (raw : RawAvailability) : list N :=
  map snd (offer_pairs raw).

(** Sample data: two countries, three offers, one of them repeated. *)
Definition raw_sample : RawAvailability :=
  [("US", mkCountryOffers (Some [offer 8 "Netflix"; offer 337 "Disney+";
                                  offer 8 "Netflix (again)"]));
   ("XX", mkCountryOffers None);
   ("FR", mkCountryOffers (Some [offer 8 "Netflix FR"]))].

Definition raw_without_flatrate : RawAvailability :=
  [("US", mkCountryOffers None); ("FR", mkCountryOffers (Some []))].

End Results.

(** ** Server side [scrapeTmdbWatchPage]: notions used to describe the
       result *)

Module Offers.
Import Js Dom Effects Extractor.

(** Line 104: the selector of the offers of a section. *)
Definition offerSelector : Selector :=
  Child (Compound [Tag "ul"; Class "providers"]) [Tag "li"].

(** The list items that lines 96-123 visit: those of the provider
    sections headed "stream", section after section in document order. *)
Definition stream_offers (doc : Node) : list Path :=
  flat_map (fun section => querySelectorAll section offerSelector)
    (filter stream_heading
       (document_querySelectorAll doc (Compound [Class "ott_provider"]))).

(** [providersInfo[name].stream] as a list, empty without an own entry. *)
Definition tiers (info : ProvidersInfo) (name : string) : list Quality :=
  match str_get info name with
  | Some s => s
  | None => []
  end.

(** Whether lines 106-112 give the list item the provider name [name]. *)
Definition is_named (name : string) (li : Path) : bool :=
  match providerNameOf li with
  | Some n => (n =? name)%string
  | None => false
  end.

(** Successive [stream.add] calls. *)
Definition add_tiers (qs s : list Quality) : list Quality :=
  fold_left (fun s q => Set_add Quality_eqb q s) qs s.

(** A name that every object inherits from [Object.prototype]. *)
Definition inherited (name : string) : bool :=
  existsb (String.eqb name) Object_prototype_names.

(** A list item whose provider name is inherited and that carries a
    quality marker. *)
Definition poisoned (li : Path) : bool :=
  match providerNameOf li with
  | Some n => inherited n && negb (Nat.eqb (List.length (li_markers li)) 0)
  | None => false
  end.

(** Sample data: a page on which Hulu has two offers, and a page with a
    provider called like an inherited property but without marker. *)
Definition two_offers_page : Node :=
  sample_page [sample_li "ott_filter_sd" "Watch Foo on Hulu";
               sample_li "ott_filter_hd" "Watch Foo on Netflix";
               sample_li "ott_filter_4k ott_filter_sd" "Watch Foo on Hulu"].

Definition harmless_inherited_page : Node :=
  sample_page [sample_li "ott_filter_hd" "Watch Foo on Hulu";
               sample_li "" "Watch Foo on toString"].

End Offers.

(** ** [URLSearchParams.prototype.toString], as the URL standard defines
       it *)

Module Forms.
Import Js Effects Extractor.

(** The bytes that the application/x-www-form-urlencoded serializer
    leaves as they are: ASCII letters and digits, and the four characters
    asterisk, hyphen, full stop and underscore. *)
Definition is_form_safe (c : ascii) : bool :=
  let n := nat_of_ascii c in
  ((65 <=? n) && (n <=? 90)) || ((97 <=? n) && (n <=? 122)) ||
  ((48 <=? n) && (n <=? 57)) ||
  existsb (Nat.eqb n) [42; 45; 46; 95].

(** A space becomes a plus sign, any other byte is percent-encoded; a code
    unit from 128 on contributes the two bytes of its UTF-8 encoding. *)
Fixpoint form_encode (s : string) : string :=
  match s with
  | EmptyString => EmptyString
  | String c s' =>
      let n := nat_of_ascii c in
      let escaped :=
        if is_form_safe c then String c ""
        else if n =? 32 then "+"
        else if n <? 128 then percent n
        else String.append (percent (192 + n / 64)) (percent (128 + n mod 64))
      in String.append escaped (form_encode s')
  end.

(** The serialization of the parameters built from an object, in the
    order of its keys. *)
Definition URLSearchParams_serialize (q : list (string * string)) : string :=
  String.concat "&"
    (map (fun kv =>
            String.append (form_encode (fst kv))
              (String.append "=" (form_encode (snd kv)))) q).

Fixpoint has_char (c : ascii) (s : string) : bool :=
  match s with
  | EmptyString => false
  | String c' s' => Ascii.eqb c c' || has_char c s'
  end.

Definition slash : ascii := ascii_of_nat 47.

(** Sample data: a platform with the standard serializer, on which every
    request succeeds. *)
Definition standard_platform : Platform :=
  {| Json := string;
     network := fun _ => ok_reply;
     parseHTML := fun _ => Dom.Text "";
     resolveHref := fun h => h;
     JSON_parse := fun s => Some s;
     URLSearchParams_toString := URLSearchParams_serialize |}.

End Forms.

(** ** The relay: the answer of the forwarding branch *)

Module Forwarding.
Import Js Effects Extractor Relay.

Section WithPlatform.
Context `{Platform}.

(** Lines 21-43 and 60-66: what the [try] block evaluates to when the
    forwarding branch runs, the [catch] included. *)
Definition forwarded (key endpoint : string) (query : list (string * string))
  : HttpResponse :=
  match network (api_request key endpoint query) with
  | Rejected => mkRes 500 (BodyError FetchRejected)
  | Fulfilled resp =>
      if negb (ok resp) then mkRes 500 (BodyError (StatusError (status resp)))
      else
        match JSON_parse (text resp) with
        | Some data => mkRes 200 (BodyJson data)
        | None => mkRes 500 (BodyError SyntaxError)
        end
  end.

End WithPlatform.

End Forwarding.

(** ** script.js: invariants of the page of one title *)

Module Pages.
Import Js Effects Extractor Client.

(** At most one dropdown carries the [show] class. *)
Definition one_open (p : Page) : Prop :=
  forall t1 t2,
    show (dropdowns p t1) = true -> show (dropdowns p t2) = true -> t1 = t2.

(** The bookkeeping of the enrichments: every request is the one for the
    watch page of the country of its tag, every enrichment in flight and
    every loaded dropdown has a request behind it, and no more
    enrichments are in flight than requests were issued. *)
Definition accounted (mediaType tmdbId : string) (p : Page) : Prop :=
  (forall t u, In (t, u) (requested p) ->
               u = tmdbLinkUrl mediaType tmdbId (snd t)) /\
  (forall t, In t (pending p) -> In t (map fst (requested p))) /\
  (forall t, jw_status (dropdowns p t) = loaded ->
             In t (map fst (requested p))) /\
  List.length (pending p) <= List.length (requested p).

(** Sample data: a result without link, and a scraped object in which no
    provider has a tier. *)
Definition no_link_result : ScrapeResult := mkResult None [].

Definition tierless_info : ProvidersInfo := [("Hulu", []); ("Apple TV", [])].

End Pages.

(** ** script.js: searching a title *)

Module Search.
Import Js Aggregator Effects Results.

(** An element of the [results] of a search/multi response; a field is
    [None] when it is missing or [null]. *)
Record Item := mkItem {
  media_type : string;
  id : N;
  item_title : option string;
  item_name : option string;
  release_date : option string;
  first_air_date : option string;
  poster_path : option string
}.

(** [a || b] on strings that may be missing. *)
Definition or_else (a b : option string) : option string :=
  if truthy a then a else b.

(** The decimal string of a number, as a template literal gives it. *)
Definition string_of_N (n : N) : string :=
  NilEmpty.string_of_uint (N.to_uint n).

(** The browser side of the environment: how the JSON of a response reads
    as search results and as watch providers, [new Date(d).getFullYear()],
    [Intl.DisplayNames] and [localeCompare]. *)
Class Browser `{Platform} := {
  results_of_search : Json -> option (list Item);
  results_of_providers : Json -> option RawAvailability;
  getFullYear : string -> string;
  displayNamesOf : string -> option string;
  localeCompare : string -> string -> Z
}.

(** What [await callApi(...)] throws. *)
Inductive CallError :=
| CallFailed (endpoint : string)
| FetchFailed
| InvalidJson.

Section WithBrowser.
Context `{Browser}.

Definition api_request (endpoint : string) (params : list (string * string))
  : Request :=
  mkRequest ("/api/tmdb?endpoint=" ++ endpoint ++ "&"
             ++ URLSearchParams_toString params)%string [].

(** Lines 42-50. *)
Definition callApi (endpoint : string) (params : list (string * string))
  : CallError + Json :=
  match network (api_request endpoint params) with
  | Rejected => inl FetchFailed
  | Fulfilled response =>
      if negb (ok response) then inl (CallFailed endpoint)
      else match JSON_parse (text response) with
           | Some data => inr data
           | None => inl InvalidJson
           end
  end.

Definition search_params (query : string) : list (string * string) :=
  [("query", query); ("include_adult", "false"); ("language", "en-US");
   ("page", "1")].

(** What the results container holds. *)
Inductive PageView :=
| Blank
| NotFound (query : string)
| ErrorMessage (e : CallError)
| TitleInfo (titleName : option string) (year : string) (kind : string)
            (providers : ResultsView).

Definition mediaTypeOf (content : Item) : string :=
  if (media_type content =? "movie")%string then "movie" else "tv".

Definition details_endpoint (content : Item) : string :=
  (mediaTypeOf content ++ "/" ++ string_of_N (id content)
   ++ "/watch/providers")%string.

(** Lines 184-193 with the title block of [displayResults] (lines
    200-205); the second component lists the requests issued. *)
Definition fetchContentDetails (content : Item)
  : (CallError + PageView) * list Request :=
  let mediaType := mediaTypeOf content in
  let titleName := or_else (item_title content) (item_name content) in
  let releaseDate := or_else (release_date content) (first_air_date content) in
  let year :=
    match releaseDate with
    | Some d => if truthy releaseDate then getFullYear d else "N/A"
    | None => "N/A"
    end in
  (match callApi (details_endpoint content) [] with
   | inl e => inl e
   | inr providersData =>
       inr (TitleInfo titleName year
              (if (mediaType =? "movie")%string then "Movie" else "TV Show")
              (displayResults displayNamesOf localeCompare
                 (results_of_providers providersData)))
   end,
   [api_request (details_endpoint content) []]).

(** Lines 171-178. *)
Definition searchContent (query : string)
  : (CallError + PageView) * list Request :=
  let request := api_request "search/multi" (search_params query) in
  match callApi "search/multi" (search_params query) with
  | inl e => (inl e, [request])
  | inr searchData =>
      match results_of_search searchData with
      | Some (first :: _) =>
          (fst (fetchContentDetails first),
           request :: snd (fetchContentDetails first))
      | _ => (inr (NotFound query), [request])
      end
  end.

(** The state the handlers share: the value of the search input, the
    global [selectedContent], the results container and the requests
    issued so far. *)
Record Ui := mkUi {
  inputValue : string;
  selectedContent : option Item;
  results : PageView;
  requests : list Request
}.

(** Lines 80-105: the submit handler. *)
Definition submit (ui : Ui) : Ui :=
  let query := trim (inputValue ui) in
  if (query =? "")%string then ui
  else
    match selectedContent ui with
    | Some content =>
        match fetchContentDetails content with
        | (inr view, issued) =>
            mkUi (inputValue ui) None view (requests ui ++ issued)
        | (inl error, issued) =>
            mkUi (inputValue ui) (Some content) (ErrorMessage error)
                 (requests ui ++ issued)
        end
    | None =>
        match searchContent query with
        | (inr view, issued) =>
            mkUi (inputValue ui) None view (requests ui ++ issued)
        | (inl error, issued) =>
            mkUi (inputValue ui) None (ErrorMessage error)
                 (requests ui ++ issued)
        end
    end.

(** The user types [value] in the search input (the autocomplete aside). *)
Definition type (value : string) (ui : Ui) : Ui :=
  mkUi value (selectedContent ui) (results ui) (requests ui).

(** One row of the autocomplete dropdown. *)
Record Suggestion := mkSuggestion {
  sg_poster : string;
  sg_title : option string;
  sg_year : string;
  sg_kind : string;
  sg_item : Item
}.

Inductive AutocompleteView :=
| Hidden
| Rows (rows : list Suggestion).

Definition is_title (item : Item) : bool :=
  (media_type item =? "movie")%string || (media_type item =? "tv")%string.

Definition suggestion (item : Item) : Suggestion :=
  let year := or_else (release_date item) (first_air_date item) in
  mkSuggestion
    (match poster_path item with
     | Some path =>
         if truthy (poster_path item)
         then ("https://image.tmdb.org/t/p/w92" ++ path)%string
         else "https://placehold.co/40x60/333/FFF?text=?"
     | None => "https://placehold.co/40x60/333/FFF?text=?"
     end)
    (or_else (item_title item) (item_name item))
    (match year with
     | Some d => if truthy year then getFullYear d else "N/A"
     | None => "N/A"
     end)
    (if (media_type item =? "movie")%string then "Movie" else "TV Show")
    item.

(** Lines 127-165. *)
Definition displayAutocomplete (results : option (list Item))
  : AutocompleteView :=
  match results with
  | None | Some [] => Hidden
  | Some items => Rows (map suggestion (filter is_title items))
  end.

(** Lines 114-121: the dropdown after the request, given what it showed
    before; nothing changes when the call or the reading of the results
    throws. *)
Definition fetchAutocomplete (query : string) (shown : AutocompleteView)
  : AutocompleteView :=
  match callApi "search/multi" (search_params query) with
  | inl _ => shown
  | inr data =>
      match results_of_search data with
      | Some items => displayAutocomplete (Some (firstn 8 items))
      | None => shown
      end
  end.

End WithBrowser.



Definition inception : Item :=
  mkItem "movie" 27205 (Some "Inception") None (Some "2010-07-15") None
         (Some "/poster.jpg").

(** A browser in which every call succeeds and every search finds a
    person first and a film second. *)
Definition nolan : Item :=
  mkItem "person" 525 None (Some "Christopher Nolan") None None None.

Definition answering_browser : @Browser Relay.relay_platform :=
  {| results_of_search := fun _ => Some [nolan; inception];
     results_of_providers := fun _ => Some raw_scenario;
     getFullYear := fun d => d;
     displayNamesOf := sample_names;
     localeCompare := codeUnitCompare |}.

End Search.

(** ** script.js: the debounced autocomplete *)

Module Autocomplete.
Import Js Effects Search.

Section WithBrowser.
Context `{Browser}.

(** The timer set by the input listener (the query it will ask for), the
    dropdown, the queries asked so far and those whose answer is still
    awaited. *)
Record Box := mkBox {
  debounceTimer : option string;
  shown : AutocompleteView;
  asked : list string;
  awaited : list string
}.

Definition empty_box : Box := mkBox None Hidden [] [].

(** Lines 55-64: the input listener, for the new value of the input. *)
Definition input (value : string) (b : Box) : Box :=
  let query := trim value in
  if String.length query <? 2
  then mkBox None Hidden (asked b) (awaited b)
  else mkBox (Some query) (shown b) (asked b) (awaited b).

(** The timer fires: [fetchAutocomplete(query)] issues its request. *)
Definition timeout (b : Box) : Box :=
  match debounceTimer b with
  | Some query =>
      mkBox None (shown b) (asked b ++ [query]) (awaited b ++ [query])
  | None => b
  end.

(** The answer to the awaited request at position [i] arrives (lines
    115-120). *)
Definition answer (i : nat) (b : Box) : Box :=
  match nth_error (awaited b) i with
  | Some query =>
      mkBox (debounceTimer b) (fetchAutocomplete query (shown b)) (asked b)
            (Client.remove_nth i (awaited b))
  | None => b
  end.

Inductive BoxEvent :=
| Input (value : string)
| Timeout
| Answer (i : nat).

Definition box_step (b : Box) (e : BoxEvent) : Box :=
  match e with
  | Input value => input value b
  | Timeout => timeout b
  | Answer i => answer i b
  end.

Definition box_run (es : list BoxEvent) (b : Box) : Box :=
  fold_left box_step es b.

End WithBrowser.

(** One when the timer is set, zero otherwise. *)
Definition armed (b : Box) : nat :=
  match debounceTimer b with
  | Some _ => 1
  | None => 0
  end.

Definition is_input (e : BoxEvent) : bool :=
  match e with
  | Input _ => true
  | _ => false
  end.

Definition is_timeout (e : BoxEvent) : bool :=
  match e with
  | Timeout => true
  | _ => false
  end.

End Autocomplete.

(* ================================================================== *)
(** * Part II: properties                                              *)
(* ================================================================== *)

(** ** Generic facts about the built-ins *)

Module JsFacts.
Import Js.

Lemma list_sum_perm (l l' : list nat) :
  Permutation l l' -> list_sum l = list_sum l'.
Proof.
  induction 1; simpl; lia.
Qed.

Section SortFacts.
Context {A : Type} (cmp : A -> A -> Z).

Lemma sort_insert_perm (x : A) (l : list A) :
  Permutation (sort_insert cmp x l) (x :: l).
Proof.
  induction l as [|y l IH]; simpl.
  - apply Permutation_refl.
  - destruct (0 <? cmp x y)%Z.
    + rewrite IH. apply perm_swap.
    + apply Permutation_refl.
Qed.

Lemma Array_sort_perm (l : list A) : Permutation (Array_sort cmp l) l.
Proof.
  induction l as [|x l IH]; simpl.
  - constructor.
  - rewrite sort_insert_perm. now constructor.
Qed.

(** A class of elements that the comparator never reorders among
    themselves keeps its order: the sort is stable. *)
Lemma sort_insert_filter (P : A -> bool) (x : A) (l : list A) :
  (forall y, (0 < cmp x y)%Z -> P x = true -> P y = false) ->
  filter P (sort_insert cmp x l) = filter P (x :: l).
Proof.
  intros HP. induction l as [|y l IH]; [reflexivity|].
  simpl sort_insert. destruct (0 <? cmp x y)%Z eqn:E.
  - apply Z.ltb_lt in E. simpl. simpl in IH. rewrite IH.
    destruct (P x) eqn:Px.
    + rewrite (HP y E eq_refl). reflexivity.
    + reflexivity.
  - reflexivity.
Qed.

Lemma Array_sort_filter (P : A -> bool) (l : list A) :
  (forall x y, (0 < cmp x y)%Z -> P x = true -> P y = false) ->
  filter P (Array_sort cmp l) = filter P l.
Proof.
  intros HP. induction l as [|x l IH]; [reflexivity|].
  simpl Array_sort. rewrite sort_insert_filter by (apply HP).
  simpl. now rewrite IH.
Qed.

Hypothesis cmp_total : forall a b, (0 < cmp a b)%Z -> (cmp b a <= 0)%Z.
Hypothesis cmp_trans :
  forall a b c, (cmp a b <= 0)%Z -> (cmp b c <= 0)%Z -> (cmp a c <= 0)%Z.

Lemma sort_insert_sorted (x : A) (l : list A) :
  StronglySorted (fun a b => (cmp a b <= 0)%Z) l ->
  StronglySorted (fun a b => (cmp a b <= 0)%Z) (sort_insert cmp x l).
Proof.
  induction 1 as [|y l Hs IH Hy]; simpl.
  - repeat constructor.
  - destruct (0 <? cmp x y)%Z eqn:E.
    + apply Z.ltb_lt in E. constructor; [exact IH|].
      rewrite Forall_forall. intros z Hz.
      apply (Permutation_in _ (sort_insert_perm x l)) in Hz.
      destruct Hz as [<-|Hz]; [now apply cmp_total|].
      rewrite Forall_forall in Hy. now apply Hy.
    + apply Z.ltb_ge in E. constructor; [now constructor|].
      constructor; [exact E|].
      rewrite Forall_forall in *. intros z Hz.
      apply cmp_trans with y; auto.
Qed.

Lemma Array_sort_sorted (l : list A) :
  StronglySorted (fun a b => (cmp a b <= 0)%Z) (Array_sort cmp l).
Proof.
  induction l as [|x l IH]; simpl.
  - constructor.
  - now apply sort_insert_sorted.
Qed.

End SortFacts.

Lemma Array_sort_map {A B : Type} (f : A -> B) (cmp : B -> B -> Z)
  (l : list A) :
  map f (Array_sort (fun a b => cmp (f a) (f b)) l) = Array_sort cmp (map f l).
Proof.
  induction l as [|x l IH]; [reflexivity|].
  simpl. rewrite <- IH. generalize (Array_sort (fun a b => cmp (f a) (f b)) l).
  intros s. induction s as [|y s IHs]; [reflexivity|].
  simpl. destruct (0 <? cmp (f x) (f y))%Z; simpl; [now rewrite IHs|reflexivity].
Qed.

Section NumKeyedFacts.
Context {V : Type}.
Implicit Types (o : list (N * V)) (k : N).

Lemma num_get_update o k k' (f : V -> V) :
  num_get (num_update o k f) k'
  = if (k =? k')%N then option_map f (num_get o k) else num_get o k'.
Proof.
  induction o as [|[k0 v] o IH]; simpl.
  - now destruct (k =? k')%N.
  - destruct (N.eqb_spec k0 k) as [E|E]; simpl.
    + subst k0. destruct (N.eqb_spec k k') as [E'|E']; reflexivity.
    + rewrite IH. destruct (N.eqb_spec k0 k') as [E1|E1];
        destruct (N.eqb_spec k k') as [E2|E2]; try reflexivity.
      congruence.
Qed.

Lemma num_get_app o k (v : V) k' :
  num_get (o ++ [(k, v)]) k'
  = match num_get o k' with
    | Some e => Some e
    | None => if (k =? k')%N then Some v else None
    end.
Proof.
  induction o as [|[k0 v0] o IH]; simpl; [reflexivity|].
  now destruct (k0 =? k')%N.
Qed.

Lemma num_get_In o k (v : V) : num_get o k = Some v -> In (k, v) o.
Proof.
  induction o as [|[k0 v0] o IH]; simpl; [discriminate|].
  destruct (N.eqb_spec k0 k) as [->|Hk].
  - intros [= ->]. now left.
  - intros H. right. now apply IH.
Qed.

Lemma num_get_None o k : num_get o k = None -> ~ In k (map fst o).
Proof.
  induction o as [|[k0 v0] o IH]; simpl; [tauto|].
  destruct (N.eqb_spec k0 k) as [->|Hk]; [discriminate|].
  intros H [Heq|Hin]; [contradiction|]. now apply IH.
Qed.

Lemma num_update_keys o k (f : V -> V) :
  map fst (num_update o k f) = map fst o.
Proof.
  induction o as [|[k0 v0] o IH]; simpl; [reflexivity|].
  destruct (k0 =? k)%N; simpl; [reflexivity|now rewrite IH].
Qed.

Lemma key_insert_perm (p : N * V) o : Permutation (key_insert p o) (p :: o).
Proof.
  induction o as [|q o IH]; simpl.
  - apply Permutation_refl.
  - destruct (fst p <? fst q)%N.
    + apply Permutation_refl.
    + rewrite IH. apply perm_swap.
Qed.

Lemma key_sort_perm o : Permutation (fold_right key_insert [] o) o.
Proof.
  induction o as [|p o IH]; simpl.
  - constructor.
  - rewrite key_insert_perm. now constructor.
Qed.

Lemma filter_split_perm {A : Type} (f : A -> bool) (l : list A) :
  Permutation (filter f l ++ filter (fun a => negb (f a)) l) l.
Proof.
  induction l as [|a l IH]; simpl; [constructor|].
  destruct (f a); simpl.
  - now constructor.
  - rewrite <- Permutation_middle. now constructor.
Qed.

Lemma Object_entries_perm o : Permutation (Object_entries o) o.
Proof.
  unfold Object_entries. rewrite key_sort_perm. apply filter_split_perm.
Qed.

Lemma key_insert_sorted (p : N * V) o :
  ~ In (fst p) (map fst o) ->
  StronglySorted (fun a b => (fst a < fst b)%N) o ->
  StronglySorted (fun a b => (fst a < fst b)%N) (key_insert p o).
Proof.
  intros Hp Hs. induction Hs as [|q o Hs IH Hq]; simpl.
  - repeat constructor.
  - destruct (N.ltb_spec (fst p) (fst q)) as [Hlt|Hge].
    + constructor; [now constructor|]. constructor; [exact Hlt|].
      rewrite Forall_forall in *. intros z Hz. specialize (Hq z Hz). lia.
    + assert (Hne : fst q <> fst p) by (intros E; apply Hp; now left).
      constructor.
      * apply IH. intros Hin. apply Hp. now right.
      * rewrite Forall_forall in *. intros z Hz.
        apply (Permutation_in _ (key_insert_perm p o)) in Hz.
        destruct Hz as [<-|Hz]; [lia|now apply Hq].
Qed.

Lemma key_sort_sorted o :
  NoDup (map fst o) ->
  StronglySorted (fun a b => (fst a < fst b)%N) (fold_right key_insert [] o).
Proof.
  induction o as [|p o IH]; simpl; intros Hnd.
  - constructor.
  - inversion Hnd as [|? ? Hp Hnd']; subst.
    apply key_insert_sorted; [|now apply IH].
    intros Hin. apply Hp.
    apply (Permutation_in _ (Permutation_map fst (key_sort_perm o))). exact Hin.
Qed.

End NumKeyedFacts.

Lemma str_get_In {V : Type} (o : list (string * V)) (k : string) (v : V) :
  NoDup (Object_keys o) -> In (k, v) o -> str_get o k = Some v.
Proof.
  unfold Object_keys.
  induction o as [|[k0 v0] o IH]; simpl; intros Hnd Hin; [contradiction|].
  inversion Hnd as [|? ? Hk0 Hnd']; subst.
  destruct Hin as [[= -> ->]|Hin].
  - now rewrite String.eqb_refl.
  - destruct (String.eqb_spec k0 k) as [->|Hne].
    + exfalso. apply Hk0. change k with (fst (k, v)). now apply in_map.
    + now apply IH.
Qed.

End JsFacts.

(** ** The availability aggregator ([displayResults]) *)

Module AggregatorProps.
Import Js Aggregator JsFacts.

Lemma fold_add_pair (c : string) (l : list Offer) pm :
  fold_left add_pair (map (pair c) l) pm = fold_left (add_offer c) l pm.
Proof.
  revert pm. induction l as [|p l IH]; intros pm; simpl; [reflexivity|].
  apply IH.
Qed.

Lemma fold_countries_flat (raw l : RawAvailability) pm :
  (forall c e, In (c, e) l -> str_get raw c = Some e) ->
  fold_left (add_country_offers raw) (Object_keys l) pm
  = fold_left add_pair (flat_offers l) pm.
Proof.
  revert pm. induction l as [|[c e] l IH]; intros pm Hl; [reflexivity|].
  simpl. unfold flat_offers in *. simpl. rewrite fold_left_app.
  unfold add_country_offers at 2. rewrite (Hl c e) by now left.
  unfold Object_keys in IH.
  destruct (flatrate e) as [offers|]; simpl.
  - rewrite fold_add_pair. apply IH. intros; apply Hl; now right.
  - apply IH. intros; apply Hl; now right.
Qed.

Lemma groupByProvider_flat (raw : RawAvailability) :
  NoDup (Object_keys raw) ->
  groupByProvider raw = fold_left add_pair (flat_offers raw) [].
Proof.
  intros Hnd. unfold groupByProvider. apply fold_countries_flat.
  intros c e Hin. now apply str_get_In.
Qed.

Lemma offer_pairs_flat (raw : RawAvailability) :
  offer_pairs raw
  = map (fun cp => (fst cp, provider_id (snd cp))) (flat_offers raw).
Proof.
  unfold offer_pairs, flat_offers.
  induction raw as [|[c e] raw IH]; [reflexivity|].
  simpl. rewrite map_app, IH. f_equal.
  destruct (flatrate e); simpl; [|reflexivity].
  now rewrite map_map.
Qed.

Lemma total_app pm pm' : total (pm ++ pm') = total pm + total pm'.
Proof.
  unfold total. now rewrite map_app, list_sum_app.
Qed.

Lemma total_update pm k e (f : ProviderEntry -> ProviderEntry) :
  num_get pm k = Some e ->
  total (num_update pm k f) + Set_size (countries e)
  = total pm + Set_size (countries (f e)).
Proof.
  unfold total.
  induction pm as [|[k0 v0] pm IH]; simpl; [discriminate|].
  destruct (k0 =? k)%N.
  - intros [= ->]. simpl. lia.
  - intros H. simpl. specialize (IH H). lia.
Qed.

Lemma Set_size_add (c : string) (s : list string) :
  Set_size (Set_add String.eqb c s)
  = Set_size s + (if Set_has String.eqb c s then 0 else 1).
Proof.
  unfold Set_add, Set_size.
  destruct (Set_has String.eqb c s); [lia|].
  now rewrite length_app.
Qed.

Lemma Set_has_add (c c' : string) (s : list string) :
  Set_has String.eqb c' (Set_add String.eqb c s)
  = Set_has String.eqb c' s || (c =? c')%string.
Proof.
  unfold Set_add. destruct (Set_has String.eqb c s) eqn:E.
  - destruct (String.eqb_spec c c') as [<-|Hne]; [|now rewrite orb_false_r].
    now rewrite E.
  - unfold Set_has. rewrite existsb_app. simpl.
    now rewrite orb_false_r, (String.eqb_sym c' c).
Qed.

(** What one [providerMap[id]...add(countryCode)] step does to a count
    and to membership. *)
Lemma add_offer_get c pm p :
  exists e1,
    let pm1 :=
      match num_get pm (provider_id p) with
      | Some _ => pm
      | None => pm ++ [(provider_id p,
                        mkEntry (provider_name p) (logo_path p) [])]
      end in
    num_get pm1 (provider_id p) = Some e1 /\
    Set_has String.eqb c (countries e1) = has pm (provider_id p) c /\
    (forall c', Set_has String.eqb c' (countries e1)
                = has pm (provider_id p) c') /\
    total pm1 = total pm /\
    (forall k', k' <> provider_id p -> num_get pm1 k' = num_get pm k').
Proof.
  unfold has. destruct (num_get pm (provider_id p)) as [e|] eqn:E.
  - exists e. simpl. rewrite E. repeat split; auto.
  - exists (mkEntry (provider_name p) (logo_path p) []). simpl.
    rewrite num_get_app, E, N.eqb_refl. repeat split; auto.
    + rewrite total_app. unfold total. simpl. lia.
    + intros k' Hk'. rewrite num_get_app.
      destruct (num_get pm k'); [reflexivity|].
      destruct (N.eqb_spec (provider_id p) k'); congruence.
Qed.

Lemma add_offer_total c pm p :
  total (add_offer c pm p)
  = total pm + (if has pm (provider_id p) c then 0 else 1).
Proof.
  unfold add_offer.
  destruct (add_offer_get c pm p) as (e1 & Hget & Hc & _ & Htot & _).
  cbv zeta in *.
  pose proof (total_update _ _ _ (add_country c) Hget) as H.
  unfold add_country in H at 2. simpl in H.
  rewrite Set_size_add, Hc in H. lia.
Qed.

Lemma add_offer_has c pm p k' c' :
  has (add_offer c pm p) k' c'
  = has pm k' c' || ((provider_id p =? k')%N && (c =? c')%string).
Proof.
  unfold add_offer.
  destruct (add_offer_get c pm p) as (e1 & Hget & _ & Hall & _ & Hother).
  cbv zeta in *. unfold has at 1. rewrite num_get_update, Hget.
  destruct (N.eqb_spec (provider_id p) k') as [<-|Hne]; simpl.
  - now rewrite Set_has_add, Hall.
  - rewrite orb_false_r. unfold has.
    rewrite Hother by congruence. reflexivity.
Qed.

Lemma nodup_snoc_length (x : string * N) (l : list (string * N)) :
  List.length (nodup pair_dec (l ++ [x]))
  = List.length (nodup pair_dec l) + (if in_dec pair_dec x l then 0 else 1).
Proof.
  induction l as [|a l IH]; simpl.
  - reflexivity.
  - destruct (in_dec pair_dec a (l ++ [x])) as [Hin|Hnin];
      destruct (in_dec pair_dec a l) as [Hin'|Hnin'];
      destruct (pair_dec a x) as [->|Hax];
      destruct (in_dec pair_dec x l) as [Hx|Hx]; simpl; rewrite ?IH;
      try destruct (in_dec pair_dec x l); try lia;
      try contradiction;
      try (exfalso; apply Hnin; apply in_or_app; simpl; tauto);
      try (apply in_app_or in Hin; simpl in Hin; exfalso;
           destruct Hin as [?|[?|[]]]; congruence).
Qed.

Lemma tracks_step c pm p ps :
  tracks pm ps -> tracks (add_offer c pm p) (ps ++ [(c, provider_id p)]).
Proof.
  intros [Hhas Htot]. split.
  - intros k' c'. rewrite add_offer_has, orb_true_iff, andb_true_iff,
      N.eqb_eq, String.eqb_eq, Hhas, in_app_iff. simpl.
    split; intros [H|H]; auto.
    + destruct H as [-> ->]. auto.
    + destruct H as [[= -> ->]|[]]. auto.
  - rewrite add_offer_total, nodup_snoc_length, Htot. f_equal.
    destruct (in_dec pair_dec (c, provider_id p) ps) as [Hin|Hnin].
    + apply Hhas in Hin. now rewrite Hin.
    + destruct (has pm (provider_id p) c) eqn:E; [|reflexivity].
      apply Hhas in E. contradiction.
Qed.

Lemma tracks_fold l pm ps :
  tracks pm ps ->
  tracks (fold_left add_pair l pm)
         (ps ++ map (fun cp => (fst cp, provider_id (snd cp))) l).
Proof.
  revert pm ps. induction l as [|[c p] l IH]; intros pm ps H; simpl.
  - now rewrite app_nil_r.
  - change (ps ++ (c, provider_id p) :: ?t)
      with (ps ++ [(c, provider_id p)] ++ t).
    rewrite app_assoc. apply IH. unfold add_pair. simpl.
    now apply tracks_step.
Qed.

Lemma sortedProviders_eq (raw : RawAvailability) :
  sortedProviders (Some raw)
  = Array_sort by_country_count (Object_values (groupByProvider raw)).
Proof.
  unfold sortedProviders. destruct raw as [|x raw]; [reflexivity|].
  cbn [Object_keys map length Nat.eqb].
  destruct (groupByProvider (x :: raw)); reflexivity.
Qed.

Lemma sortedProviderEntries_eq (raw : RawAvailability) :
  sortedProviderEntries (Some raw)
  = Array_sort (fun a b => by_country_count (snd a) (snd b))
               (Object_entries (groupByProvider raw)).
Proof.
  unfold sortedProviderEntries. destruct raw as [|x raw]; [reflexivity|].
  cbn [Object_keys map length Nat.eqb].
  destruct (groupByProvider (x :: raw)); reflexivity.
Qed.

(** C1.  For every raw availability object (distinct country keys), the
    sizes of the [countries] sets of the rendered provider entries add up
    to the number of distinct (country, provider) pairs of the flatrate
    lists: no pair is lost and none is counted twice. *)
Theorem countries_sizes_sum (raw : RawAvailability) :
  NoDup (Object_keys raw) ->
  list_sum (map (fun e => Set_size (countries e)) (sortedProviders (Some raw)))
  = List.length (nodup pair_dec (offer_pairs raw)).
Proof.
  intros Hnd. rewrite sortedProviders_eq.
  rewrite (list_sum_perm _ _
             (Permutation_map _ (Array_sort_perm by_country_count _))).
  unfold Object_values. rewrite map_map.
  rewrite (list_sum_perm _ _
             (Permutation_map _ (Object_entries_perm (groupByProvider raw)))).
  fold (total (groupByProvider raw)).
  rewrite groupByProvider_flat by assumption.
  rewrite offer_pairs_flat.
  assert (H0 : tracks [] []) by (split; [intros; simpl; split; [discriminate|tauto]|reflexivity]).
  apply (tracks_fold (flat_offers raw)) in H0. apply H0.
Qed.

Lemma countries_sizes_sum_witness :
  list_sum (map (fun e => Set_size (countries e))
                (sortedProviders (Some raw_scenario))) = 3.
Proof.
  rewrite (countries_sizes_sum raw_scenario).
  - reflexivity.
  - unfold Object_keys. simpl.
    repeat (constructor; [simpl; intuition discriminate|]). constructor.
Defined.

(** *** Order of the provider sequence *)

Lemma fold_left_inv {S X : Type} (P : S -> Prop) (f : S -> X -> S) :
  (forall s x, P s -> P (f s x)) ->
  forall l s, P s -> P (fold_left f l s).
Proof.
  intros Hf. induction l as [|x l IH]; intros s Hs; simpl; auto.
Qed.

Lemma add_offer_keys c pm p :
  NoDup (map fst pm) -> NoDup (map fst (add_offer c pm p)).
Proof.
  intros Hnd. unfold add_offer. rewrite num_update_keys.
  destruct (num_get pm (provider_id p)) eqn:E; [exact Hnd|].
  rewrite map_app. simpl. apply num_get_None in E.
  apply (Permutation_NoDup (Permutation_cons_append _ _)).
  now constructor.
Qed.

Lemma groupByProvider_keys (raw : RawAvailability) :
  NoDup (map fst (groupByProvider raw)).
Proof.
  unfold groupByProvider. apply fold_left_inv; [|constructor].
  intros pm c Hpm. unfold add_country_offers.
  destruct (str_get raw c) as [e|]; [|exact Hpm].
  destruct (flatrate e) as [l|]; [|exact Hpm].
  apply fold_left_inv; [|exact Hpm].
  intros pm' p. apply add_offer_keys.
Qed.

Lemma NoDup_keys_filter {K V : Type} (f : K * V -> bool) (o : list (K * V)) :
  NoDup (map fst o) -> NoDup (map fst (filter f o)).
Proof.
  induction o as [|p o IH]; simpl; intros Hnd; [constructor|].
  inversion Hnd as [|? ? Hp Hnd']; subst.
  destruct (f p); simpl; [|now apply IH].
  constructor; [|now apply IH].
  intros Hin. apply Hp. apply in_map_iff in Hin.
  destruct Hin as (q & Hq & Hin). apply filter_In in Hin.
  rewrite <- Hq. apply in_map. tauto.
Qed.

Lemma filter_decompose {A : Type} (P : A -> bool) (l l1 l2 : list A) (x : A) :
  filter P l = l1 ++ x :: l2 ->
  exists m1 m2, l = m1 ++ x :: m2 /\ filter P m1 = l1 /\ filter P m2 = l2.
Proof.
  revert l1. induction l as [|y l IH]; intros l1 H; simpl in H.
  - destruct l1; discriminate.
  - destruct (P y) eqn:Py.
    + destruct l1 as [|z l1]; simpl in H; injection H as -> H.
      * exists [], l. simpl. auto.
      * destruct (IH _ H) as (m1 & m2 & -> & <- & <-).
        exists (z :: m1), m2. simpl. rewrite Py. auto.
    + destruct (IH _ H) as (m1 & m2 & -> & <- & <-).
      exists (y :: m1), m2. simpl. rewrite Py. auto.
Qed.

Lemma Before_filter {A : Type} (P : A -> bool) (a b : A) (l : list A) :
  Before a b l -> P a = true -> P b = true -> Before a b (filter P l).
Proof.
  intros (l1 & l2 & l3 & ->) Pa Pb.
  exists (filter P l1), (filter P l2), (filter P l3).
  rewrite filter_app. simpl. rewrite Pa, filter_app. simpl. now rewrite Pb.
Qed.

Lemma Before_filter_inv {A : Type} (P : A -> bool) (a b : A) (l : list A) :
  Before a b (filter P l) -> Before a b l.
Proof.
  intros (l1 & l2 & l3 & H).
  apply filter_decompose in H. destruct H as (m1 & m2 & -> & _ & H).
  apply filter_decompose in H. destruct H as (n1 & n2 & -> & _ & _).
  now exists m1, n1, n2.
Qed.

Lemma Before_sorted {A : Type} (R : A -> A -> Prop) (a b : A) (l : list A) :
  StronglySorted R l -> Before a b l -> R a b.
Proof.
  intros Hs (l1 & l2 & l3 & ->).
  induction l1 as [|x l1 IH]; simpl in Hs; apply StronglySorted_inv in Hs.
  - destruct Hs as [_ Hall]. rewrite Forall_forall in Hall.
    apply Hall. apply in_or_app. right. now left.
  - apply IH, Hs.
Qed.

Lemma filter_all {A : Type} (P : A -> bool) (l : list A) :
  (forall x, In x l -> P x = true) -> filter P l = l.
Proof.
  induction l as [|x l IH]; simpl; intros H; [reflexivity|].
  rewrite (H x) by now left. f_equal. apply IH. intros; apply H; now right.
Qed.

Lemma filter_none {A : Type} (P : A -> bool) (l : list A) :
  (forall x, In x l -> P x = false) -> filter P l = [].
Proof.
  induction l as [|x l IH]; simpl; intros H; [reflexivity|].
  rewrite (H x) by now left. apply IH. intros; apply H; now right.
Qed.

(** In [Object.entries], the array-index keys come in ascending order. *)
Lemma Object_entries_ascending {V : Type} (o : list (N * V)) (a b : N * V) :
  NoDup (map fst o) ->
  Before a b (Object_entries o) ->
  is_array_index (fst a) = true -> is_array_index (fst b) = true ->
  (fst a < fst b)%N.
Proof.
  intros Hnd Hb Ha Hbi.
  apply (Before_filter (fun p => is_array_index (fst p))) in Hb; auto.
  unfold Object_entries in Hb. rewrite filter_app in Hb.
  set (Q := fun p : N * V => is_array_index (fst p)) in *.
  rewrite (filter_all Q (fold_right key_insert [] (filter Q o))) in Hb.
  - rewrite (filter_none Q (filter (fun p => negb (is_array_index (fst p))) o))
      in Hb.
    + rewrite app_nil_r in Hb.
      refine (Before_sorted (fun x y => (fst x < fst y)%N) a b _ _ Hb).
      apply key_sort_sorted. now apply NoDup_keys_filter.
    + intros x Hx. apply filter_In in Hx. destruct Hx as [_ Hx].
      now apply negb_true_iff in Hx.
  - intros x Hx. apply (Permutation_in _ (key_sort_perm _)) in Hx.
    apply filter_In in Hx. tauto.
Qed.

Lemma StronglySorted_impl {A : Type} (R R' : A -> A -> Prop) (l : list A) :
  (forall a b, R a b -> R' a b) -> StronglySorted R l -> StronglySorted R' l.
Proof.
  intros HR. induction 1 as [|x l Hs IH Hx]; constructor; auto.
  rewrite Forall_forall in *. auto.
Qed.

(** C2 (amended).  The provider sequence is sorted non-increasing by
    [countries.size]; among entries with the same size, the order is that
    of [Object.values(providerMap)]: provider ids that are array indices
    (below 2^32 - 1) appear in ascending numeric order, whatever the order
    in which the traversal met them. *)
Theorem sortedProviders_order (raw : RawAvailability) :
  map snd (sortedProviderEntries (Some raw)) = sortedProviders (Some raw) /\
  StronglySorted
    (fun a b => Set_size (countries b) <= Set_size (countries a))
    (sortedProviders (Some raw)) /\
  forall a b,
    Before a b (sortedProviderEntries (Some raw)) ->
    Set_size (countries (snd a)) = Set_size (countries (snd b)) ->
    is_array_index (fst a) = true -> is_array_index (fst b) = true ->
    (fst a < fst b)%N.
Proof.
  rewrite sortedProviders_eq, sortedProviderEntries_eq. split; [|split].
  - unfold Object_values. apply Array_sort_map.
  - apply StronglySorted_impl
      with (R := fun a b => (by_country_count a b <= 0)%Z).
    + unfold by_country_count. intros; lia.
    + apply Array_sort_sorted; unfold by_country_count; intros; lia.
  - intros a b Hb Hsize Ha Hbi.
    set (P := fun e : N * ProviderEntry =>
                Set_size (countries (snd e)) =? Set_size (countries (snd a))).
    apply (Before_filter P) in Hb.
    + rewrite Array_sort_filter in Hb.
      * apply Before_filter_inv in Hb.
        apply (Object_entries_ascending _ a b (groupByProvider_keys raw));
          assumption.
      * unfold P, by_country_count. intros x y Hxy Hx.
        apply Nat.eqb_eq in Hx. apply Nat.eqb_neq. lia.
    + unfold P. apply Nat.eqb_refl.
    + unfold P. apply Nat.eqb_eq. congruence.
Qed.

Lemma sortedProviders_order_witness :
  (fst (8%N, mkEntry "Netflix" "/logo.png" ["FR"])
   < fst (9%N, mkEntry "Disney+" "/logo.png" ["US"]))%N.
Proof.
  apply (proj2 (proj2 (sortedProviders_order raw_tie))).
  - exists [], [], []. reflexivity.
  - reflexivity.
  - reflexivity.
  - reflexivity.
Defined.

(** C2 as stated fails: Disney+ (id 9) is met first, in US, and Netflix
    (id 8) second, in FR; both stream in one country, and Netflix is listed
    first. *)
Lemma ties_not_in_encounter_order :
  NoDup (Object_keys raw_tie) /\
  sortedProviders (Some raw_tie)
  = [mkEntry "Netflix" "/logo.png" ["FR"];
     mkEntry "Disney+" "/logo.png" ["US"]] /\
  encounter_order raw_tie = [9%N; 8%N] /\
  ~ ties_follow_encounter_order raw_tie.
Proof.
  split; [|split; [reflexivity|split; [reflexivity|]]].
  - unfold Object_keys. simpl.
    repeat (constructor; [simpl; intuition discriminate|]). constructor.
  - intros H.
    specialize (H (8%N, mkEntry "Netflix" "/logo.png" ["FR"])
                  (9%N, mkEntry "Disney+" "/logo.png" ["US"])).
    assert (Hlt : 1 < 0); [|lia].
    apply H; [|reflexivity].
    exists [], [], []. reflexivity.
Qed.

(** *** Countries of one provider *)

Lemma codeUnitCompare_total (a b : string) :
  (0 < codeUnitCompare a b)%Z -> (codeUnitCompare b a <= 0)%Z.
Proof.
  unfold codeUnitCompare. rewrite (String.compare_antisym b a).
  destruct (String.compare a b); simpl; lia.
Qed.

Lemma codeUnitCompare_trans (a b c : string) :
  (codeUnitCompare a b <= 0)%Z -> (codeUnitCompare b c <= 0)%Z ->
  (codeUnitCompare a c <= 0)%Z.
Proof.
  unfold codeUnitCompare.
  destruct (String.compare a b) eqn:Eab; try lia;
    destruct (String.compare b c) eqn:Ebc; try lia; intros _ _.
  - apply String_as_OT.cmp_eq in Eab. subst b. rewrite Ebc. lia.
  - apply String_as_OT.cmp_eq in Eab. subst b. rewrite Ebc. lia.
  - apply String_as_OT.cmp_eq in Ebc. subst c. rewrite Eab. lia.
  - apply String_as_OT.cmp_lt in Eab, Ebc.
    pose proof (String_as_OT.lt_trans _ _ _ Eab Ebc) as H.
    apply String_as_OT.cmp_lt in H. unfold String_as_OT.cmp in H.
    rewrite H. lia.
Qed.

(** C8.  The countries of a provider entry are rendered sorted by display
    name ([getCountryName]), not by code; when no display name is available
    for a code, [getCountryName] returns the code in upper case, which is
    the code itself for the upper-case codes of the data model. *)
Theorem countries_sorted_by_display_name
  (displayNamesOf : string -> option string)
  (localeCompare : string -> string -> Z)
  (localeCompare_total :
     forall a b, (0 < localeCompare a b)%Z -> (localeCompare b a <= 0)%Z)
  (localeCompare_trans :
     forall a b c, (localeCompare a b <= 0)%Z -> (localeCompare b c <= 0)%Z ->
                   (localeCompare a c <= 0)%Z)
  (provider : ProviderEntry) :
  Permutation (sortedCountries displayNamesOf localeCompare provider)
              (countries provider) /\
  StronglySorted
    (fun a b => (localeCompare (getCountryName displayNamesOf a)
                               (getCountryName displayNamesOf b) <= 0)%Z)
    (sortedCountries displayNamesOf localeCompare provider) /\
  forall code,
    displayNamesOf (toUpperCase code) = None ->
    getCountryName displayNamesOf code = toUpperCase code /\
    (toUpperCase code = code -> getCountryName displayNamesOf code = code).
Proof.
  split; [|split].
  - apply Array_sort_perm.
  - unfold sortedCountries.
    apply (Array_sort_sorted
             (fun a b => localeCompare (getCountryName displayNamesOf a)
                                       (getCountryName displayNamesOf b))).
    + intros a b. apply localeCompare_total.
    + intros a b c. apply localeCompare_trans.
  - intros code Hnone. unfold getCountryName. rewrite Hnone.
    split; [reflexivity|auto].
Qed.

Lemma countries_sorted_by_display_name_witness :
  sortedCountries sample_names codeUnitCompare sample_provider
  = ["FR"; "DE"; "US"; "ZZ"] /\
  StronglySorted
    (fun a b => (codeUnitCompare (getCountryName sample_names a)
                                 (getCountryName sample_names b) <= 0)%Z)
    (sortedCountries sample_names codeUnitCompare sample_provider) /\
  getCountryName sample_names "ZZ" = "ZZ".
Proof.
  pose proof (countries_sorted_by_display_name sample_names codeUnitCompare
                codeUnitCompare_total codeUnitCompare_trans sample_provider)
    as (_ & Hsorted & Hcode).
  split; [reflexivity|split; [exact Hsorted|]].
  apply (Hcode "ZZ"); reflexivity.
Defined.

End AggregatorProps.

(** ** The page extractor and the fetch strategy (server side
       [scrapeTmdbWatchPage]) *)

Module ExtractorProps.
Import Js Dom Effects Extractor JsFacts.

Section StrKeyedFacts.
Context {V : Type}.
Implicit Types (o : list (string * V)) (k : string).

Lemma str_get_update o k k' (f : V -> V) :
  str_get (str_update o k f) k'
  = if (k =? k')%string then option_map f (str_get o k) else str_get o k'.
Proof.
  induction o as [|[k0 v] o IH]; simpl.
  - now destruct (k =? k')%string.
  - destruct (String.eqb_spec k0 k) as [E|E]; simpl.
    + subst k0. destruct (String.eqb_spec k k'); reflexivity.
    + rewrite IH. destruct (String.eqb_spec k0 k') as [E1|E1];
        destruct (String.eqb_spec k k') as [E2|E2]; try reflexivity.
      congruence.
Qed.

Lemma str_get_app o k (v : V) k' :
  str_get (o ++ [(k, v)]) k'
  = match str_get o k' with
    | Some e => Some e
    | None => if (k =? k')%string then Some v else None
    end.
Proof.
  induction o as [|[k0 v0] o IH]; simpl; [reflexivity|].
  now destruct (k0 =? k')%string.
Qed.

Lemma str_update_In o k (f : V -> V) k' v :
  In (k', v) (str_update o k f) ->
  In (k', v) o \/ exists v0, In (k', v0) o /\ v = f v0.
Proof.
  induction o as [|[k0 v0] o IH]; simpl; [tauto|].
  destruct (k0 =? k)%string; simpl.
  - intros [[= <- <-]|Hin]; [right; exists v0; auto|auto].
  - intros [Heq|Hin]; [auto|].
    destruct (IH Hin) as [H|(v1 & H & ->)]; [auto|].
    right. exists v1. auto.
Qed.

End StrKeyedFacts.

Lemma forEach_inv {X S : Type} (P : S -> Prop) (f : X -> S -> Outcome S) :
  (forall x s s', P s -> f x s = Return s' -> P s') ->
  forall l s s', P s -> forEach f l s = Return s' -> P s'.
Proof.
  intros Hf. induction l as [|x l IH]; simpl; intros s s' Hs H.
  - now injection H as <-.
  - destruct (f x s) as [s1|e] eqn:E; [|discriminate].
    apply (IH s1); [|exact H]. now apply (Hf x s).
Qed.

Lemma Quality_eqb_eq (a b : Quality) : Quality_eqb a b = true <-> a = b.
Proof. destruct a, b; simpl; split; congruence. Qed.

Lemma Set_add_NoDup (q : Quality) (s : list Quality) :
  NoDup s -> NoDup (Set_add Quality_eqb q s).
Proof.
  intros Hs. unfold Set_add, Set_has. destruct (existsb _ s) eqn:E; [exact Hs|].
  apply (Permutation_NoDup (Permutation_cons_append _ _)).
  constructor; [|exact Hs]. intros Hin.
  assert (existsb (Quality_eqb q) s = true); [|congruence].
  apply existsb_exists. exists q. split; [exact Hin|now apply Quality_eqb_eq].
Qed.

Lemma add_if_marked_NoDup li name q info info' :
  streams_NoDup info -> add_if_marked li name q info = Return info' ->
  streams_NoDup info'.
Proof.
  unfold add_if_marked, stream_add. intros Hinv.
  destruct (classList_contains _ _); [|now intros [= <-]].
  destruct (str_get info name); [|discriminate].
  intros [= <-] n st Hin. apply str_update_In in Hin.
  destruct Hin as [Hin|(st0 & Hin & ->)]; [now apply (Hinv n)|].
  apply Set_add_NoDup. now apply (Hinv n).
Qed.

Lemma processOffer_NoDup li info info' :
  streams_NoDup info -> processOffer li info = Return info' ->
  streams_NoDup info'.
Proof.
  unfold processOffer. intros Hinv.
  destruct (providerNameOf li) as [name|]; [|now intros [= <-]].
  apply forEach_inv.
  - intros q s s'. apply add_if_marked_NoDup.
  - destruct (truthy_at info name); [exact Hinv|].
    intros n st Hin. apply in_app_or in Hin.
    destruct Hin as [Hin|[[= <- <-]|[]]]; [now apply (Hinv n)|constructor].
Qed.

Lemma processSection_NoDup section info info' :
  streams_NoDup info -> processSection section info = Return info' ->
  streams_NoDup info'.
Proof.
  unfold processSection. intros Hinv.
  destruct (querySelector section _); [|now intros [= <-]].
  destruct (negb _); [now intros [= <-]|].
  apply forEach_inv; [|exact Hinv].
  intros li s s'. apply processOffer_NoDup.
Qed.

(** The three tests of one list item, for a provider that has an own
    entry: no exception, the marked tiers are added in the order 4K, HD,
    SD, and the other providers are left alone. *)
Lemma add_markers li name (qs : list Quality) :
  forall info s,
    str_get info name = Some s ->
    exists info',
      forEach (add_if_marked li name) qs info = Return info' /\
      str_get info' name
      = Some (fold_left (fun s q => Set_add Quality_eqb q s)
                (filter (fun q => classList_contains (node_of li) (marker q))
                        qs) s) /\
      forall k, k <> name -> str_get info' k = str_get info k.
Proof.
  induction qs as [|q qs IH]; intros info s Hs; simpl.
  - exists info. auto.
  - unfold add_if_marked at 1.
    destruct (classList_contains (node_of li) (marker q)).
    + unfold stream_add. rewrite Hs.
      destruct (IH (str_update info name (Set_add Quality_eqb q))
                   (Set_add Quality_eqb q s)) as (info' & H1 & H2 & H3).
      { rewrite str_get_update, String.eqb_refl, Hs. reflexivity. }
      exists info'. split; [exact H1|split; [exact H2|]].
      intros k Hk. rewrite (H3 k Hk), str_get_update.
      destruct (String.eqb_spec name k); congruence.
    + apply IH. exact Hs.
Qed.

Lemma match_on_eq (s : string) :
  match_on s
  = if prefix "on " s && no_line_terminator (drop 3 s) then Some (drop 3 s)
    else match s with
         | EmptyString => None
         | String _ s' => match_on s'
         end.
Proof. destruct s; reflexivity. Qed.

Lemma prefix_drop (p s : string) :
  prefix p s = true -> s = (p ++ drop (String.length p) s)%string.
Proof.
  revert s. induction p as [|a p IH]; intros s; simpl.
  - reflexivity.
  - destruct s as [|b s]; simpl; [intros; discriminate|].
    destruct (ascii_dec a b) as [->|]; [|intros; discriminate].
    intros H. f_equal. now apply IH.
Qed.

Lemma prefix_app (p s : string) : prefix p (p ++ s) = true.
Proof.
  induction p as [|a p IH]; simpl.
  - now destruct s.
  - destruct (ascii_dec a a); [exact IH|contradiction].
Qed.

Lemma drop_app (p s : string) : drop (String.length p) (p ++ s) = s.
Proof.
  induction p as [|a p IH]; simpl; [reflexivity|exact IH].
Qed.

(** The capture group of the pattern: what follows the leftmost "on " that
    no line terminator follows. *)
Lemma match_on_spec (t cap : string) :
  match_on t = Some cap <->
  exists pre,
    t = (pre ++ "on " ++ cap)%string /\
    no_line_terminator cap = true /\
    forall i, i < String.length pre ->
      prefix "on " (drop i t) && no_line_terminator (drop (i + 3) t) = false.
Proof.
  split.
  - revert cap. induction t as [|c t IH]; intros cap; rewrite match_on_eq.
    + simpl. discriminate.
    + destruct (prefix "on " (String c t)
                && no_line_terminator (drop 3 (String c t))) eqn:E.
      * intros [= <-]. apply andb_prop in E. destruct E as [E1 E2].
        exists ""%string. split; [|split; [exact E2|]].
        -- apply (prefix_drop "on "). exact E1.
        -- simpl. intros i Hi. lia.
      * intros H. destruct (IH _ H) as (pre & -> & Hn & Hi).
        exists (String c pre). split; [reflexivity|split; [exact Hn|]].
        intros [|i] Hlt; [exact E|]. simpl in Hlt.
        apply (Hi i). lia.
  - intros (pre & Ht & Hn & Hi). revert t Ht Hi.
    induction pre as [|c pre IH]; intros t Ht Hi; rewrite match_on_eq.
    + subst t. change ("" ++ "on " ++ cap)%string with ("on " ++ cap)%string.
      rewrite prefix_app. change 3 with (String.length "on ").
      now rewrite drop_app, Hn.
    + specialize (Hi 0 (Nat.lt_0_succ _)) as H0.
      change (0 + 3) with 3 in H0. change (drop 0 t) with t in H0.
      rewrite H0. subst t. simpl.
      apply IH; [reflexivity|].
      intros i Hlt. apply (Hi (S i)). simpl. lia.
Qed.

Section WithPlatform.
Context `{Platform}.

Lemma extract_NoDup (doc : Node) (r : ScrapeResult) :
  extract doc = Return r -> streams_NoDup (providersInfo r).
Proof.
  unfold extract.
  destruct (forEach processSection _ []) as [info|e] eqn:E; [|discriminate].
  intros [= <-]. simpl. revert E. apply forEach_inv.
  - intros section s s'. apply processSection_NoDup.
  - intros n st [].
Qed.

Lemma forEach_skip {X S : Type} (f : X -> S -> Outcome S) (l : list X)
  (s : S) :
  (forall x, In x l -> f x s = Return s) -> forEach f l s = Return s.
Proof.
  induction l as [|x l IH]; simpl; intros Hf; [reflexivity|].
  rewrite (Hf x) by now left. apply IH. intros y Hy. apply Hf. now right.
Qed.

Lemma processSection_skip (section : Path) (info : ProvidersInfo) :
  stream_heading section = false -> processSection section info = Return info.
Proof.
  unfold stream_heading, processSection.
  destruct (querySelector section (Compound [Tag "h3"])); [|reflexivity].
  now intros ->.
Qed.

(** C3.  The scraper is total.  Whatever the network answers and whatever
    the parser makes of the text, [scrapeTmdbWatchPage] (in both variants)
    returns a result and never raises; when anything in the body of its
    [try] throws (a rejected or non-OK fetch, or an exception while the
    document is queried), the result is the empty one; a document without
    a JustWatch link and without provider sections yields the empty
    result, and more precisely a missing link leaves [justWatchUrl] absent
    and a page without a section headed "stream" leaves [providersInfo]
    empty; and the client side wrapper returns the empty result on each of
    its failure paths. *)
Theorem scrape_is_total (url : string) (log : list Request) :
  (exists r,
     scrapeTmdbWatchPage url log = (Return r, log ++ [mkRequest url []])) /\
  (exists r,
     scrapeTmdbWatchPage_proxied url log
     = (Return r, log ++ [proxy_request url])) /\
  (forall e log',
     scrape_body url log = (Throw e, log') ->
     scrapeTmdbWatchPage url log = (Return emptyResult, log')) /\
  (forall doc,
     document_querySelector doc justWatchSelector = None ->
     document_querySelectorAll doc (Compound [Class "ott_provider"]) = [] ->
     extract doc = Return emptyResult) /\
  (forall doc,
     document_querySelector doc justWatchSelector = None ->
     forall r, extract doc = Return r -> justWatchUrl r = None) /\
  (forall doc,
     (forall section,
        In section
           (document_querySelectorAll doc (Compound [Class "ott_provider"])) ->
        stream_heading section = false) ->
     exists r, extract doc = Return r /\ providersInfo r = []) /\
  (forall relay json,
     relay ("/api/tmdb?url=" ++ encodeURIComponent url)%string
       = Client.ReplyRejected \/
     relay ("/api/tmdb?url=" ++ encodeURIComponent url)%string
       = Client.Reply false json \/
     relay ("/api/tmdb?url=" ++ encodeURIComponent url)%string
       = Client.Reply true None ->
     Client.scrapeTmdbWatchPage relay url = emptyResult).
Proof.
  assert (Htotal : forall u, exists r,
            try_catch (scrape_body u) (fun _ => ret emptyResult) log
            = (Return r, log ++ [mkRequest u []])).
  { intros u. unfold try_catch, scrape_body, bind, fetch.
    destruct (network (mkRequest u [])) as [|resp].
    - now exists emptyResult.
    - destruct (negb (ok resp)); simpl.
      + now exists emptyResult.
      + unfold lift. destruct (extract (parseHTML (text resp))) as [r|e].
        * now exists r.
        * now exists emptyResult. }
  split; [apply Htotal|].
  split; [apply (Htotal (req_url (proxy_request url)))|].
  split; [|split; [|split; [|split]]].
  - intros e log' Hbody. unfold scrapeTmdbWatchPage, try_catch.
    now rewrite Hbody.
  - intros doc Hlink Hsections. unfold extract.
    now rewrite Hlink, Hsections.
  - intros doc Hlink r. unfold extract. rewrite Hlink.
    destruct (forEach processSection _ []); [|discriminate].
    now intros [= <-].
  - intros doc Hskip. unfold extract.
    rewrite forEach_skip.
    + eexists. split; reflexivity.
    + intros section Hin. apply processSection_skip. now apply Hskip.
  - intros relay json Hreply. unfold Client.scrapeTmdbWatchPage.
    destruct Hreply as [-> | [-> | ->]]; reflexivity.
Qed.

(** C5 (amended).  The tiers of a provider are free of duplicates; they
    are rendered in the order in which they are stored, without any
    reordering; and that order is the order of insertion: each list item
    of the provider adds its marked tiers that are not yet present, tested
    in the order 4K, HD, SD whatever the order of the class tokens, so that
    the first list item of a provider alone gives 4K, then HD, then SD
    (those that are marked). *)
Theorem tiers_in_insertion_order :
  (forall doc r name stream,
     extract doc = Return r -> In (name, stream) (providersInfo r) ->
     NoDup stream) /\
  (forall stream, map snd (Client.qualityTags stream) = map label stream) /\
  (forall li info info' name,
     providerNameOf li = Some name ->
     existsb (String.eqb name) Object_prototype_names = false ->
     processOffer li info = Return info' ->
     str_get info' name
     = Some (fold_left (fun s q => Set_add Quality_eqb q s) (li_markers li)
               (match str_get info name with
                | Some s => s
                | None => []
                end))) /\
  (forall li,
     fold_left (fun s q => Set_add Quality_eqb q s) (li_markers li) []
     = li_markers li).
Proof.
  split; [|split; [|split]].
  - intros doc r name stream Hr Hin. exact (extract_NoDup doc r Hr _ _ Hin).
  - intros stream. unfold Client.qualityTags. rewrite map_map. reflexivity.
  - intros li info info' name Hname Hproto. unfold processOffer.
    rewrite Hname. unfold truthy_at.
    destruct (str_get info name) as [s|] eqn:Hget.
    + destruct (add_markers li name [Q4K; HD; SD] info s Hget)
        as (info1 & H1 & H2 & _).
      rewrite H1. intros [= <-]. exact H2.
    + rewrite Hproto.
      destruct (add_markers li name [Q4K; HD; SD]
                  (info ++ [(name, [])]) []) as (info1 & H1 & H2 & _).
      { rewrite str_get_app, Hget, String.eqb_refl. reflexivity. }
      rewrite H1. intros [= <-]. exact H2.
  - intros li. unfold li_markers, filter.
    destruct (classList_contains (node_of li) (marker Q4K)),
             (classList_contains (node_of li) (marker HD)),
             (classList_contains (node_of li) (marker SD)); reflexivity.
Qed.

(** C4 (amended).  Each variant of the scraper issues exactly one GET and
    has no fallback: the direct variant requests the URL itself, the
    proxied variant requests the proxy with the URL percent-encoded; when
    that one request is not retrievable, the empty result is returned. *)
Theorem one_fetch_no_fallback (url : string) (log : list Request) :
  snd (scrapeTmdbWatchPage url log) = log ++ [mkRequest url []] /\
  snd (scrapeTmdbWatchPage_proxied url log) = log ++ [proxy_request url] /\
  (not_retrievable url ->
   fst (scrapeTmdbWatchPage url log) = Return emptyResult) /\
  (not_retrievable (req_url (proxy_request url)) ->
   fst (scrapeTmdbWatchPage_proxied url log) = Return emptyResult).
Proof.
  assert (Hlog : forall u, snd (try_catch (scrape_body u)
                                   (fun _ => ret emptyResult) log)
                           = log ++ [mkRequest u []]).
  { intros u. unfold try_catch, scrape_body, bind, fetch.
    destruct (network (mkRequest u [])) as [|resp]; [reflexivity|].
    destruct (negb (ok resp)); [reflexivity|].
    unfold lift. destruct (extract _); reflexivity. }
  assert (Hfail : forall u, not_retrievable u ->
                    fst (try_catch (scrape_body u)
                           (fun _ => ret emptyResult) log)
                    = Return emptyResult).
  { intros u [Hu|(resp & Hu & Hok)];
      unfold try_catch, scrape_body, bind, fetch; rewrite Hu;
      [reflexivity|]. rewrite Hok. reflexivity. }
  repeat split.
  - apply Hlog.
  - apply (Hlog (req_url (proxy_request url))).
  - apply Hfail.
  - apply (Hfail (req_url (proxy_request url))).
Qed.

End WithPlatform.

Lemma scrape_is_total_witness :
  @scrapeTmdbWatchPage inherited_name_platform sample_url []
  = (Return emptyResult, [mkRequest sample_url []]) /\
  @extract inherited_name_platform
     (Element "html" [] [Element "body" [] [Text "hello"]])
  = Return emptyResult /\
  Client.scrapeTmdbWatchPage (fun _ => Client.ReplyRejected) sample_url
  = emptyResult.
Proof.
  destruct (@scrape_is_total inherited_name_platform sample_url [])
    as (_ & _ & Hthrow & Hmissing & _ & _ & Hclient).
  split; [|split].
  - apply (Hthrow TypeError). reflexivity.
  - apply Hmissing; reflexivity.
  - apply (Hclient _ None). left. reflexivity.
Defined.

Lemma tiers_in_insertion_order_witness :
  NoDup [Q4K; HD; SD] /\
  str_get [("Hulu", [HD; Q4K; SD])] "Hulu"
  = Some (fold_left (fun s q => Set_add Quality_eqb q s)
            (li_markers
               (alone (sample_li "ott_filter_sd ott_filter_hd ott_filter_4k"
                                 "Watch Foo on Hulu")))
            [HD]).
Proof.
  destruct (@tiers_in_insertion_order
              (sample_platform three_markers_page ok_reply))
    as (Hnodup & _ & Hadd & _).
  split.
  - apply (Hnodup three_markers_page
             (mkResult (Some "https://www.justwatch.com/us/movie/foo")
                       [("Hulu", [Q4K; HD; SD])]) "Hulu").
    + reflexivity.
    + left. reflexivity.
  - apply (Hadd _ [("Hulu", [HD])] _ "Hulu"); reflexivity.
Defined.

(** C5 as stated fails: a list item marked SD, HD and 4K is stored and
    rendered as 4K, HD, SD. *)
Lemma tiers_not_in_canonical_order :
  @extract (sample_platform three_markers_page ok_reply) three_markers_page
  = Return (mkResult (Some "https://www.justwatch.com/us/movie/foo")
                     [("Hulu", [Q4K; HD; SD])]) /\
  Client.qualityItems [("Hulu", [Q4K; HD; SD])]
  = [("Hulu", [("quality-tag q-4k", "4K"); ("quality-tag q-hd", "HD");
               ("quality-tag q-sd", "SD")])] /\
  ~ canonical [Q4K; HD; SD].
Proof.
  split; [reflexivity|split; [reflexivity|]].
  intros Hc. inversion Hc as [|? ? _ Hall]; subst.
  inversion Hall as [|? ? Hlt _]; subst. simpl in Hlt. lia.
Qed.

(** C7.  The code aims at the provider name, as its comment says with
    the title "Watch Movie on Netflix", and gets it there.  On the title
    "Watch Napoleon on Hulu" it names the provider "on Hulu": the pattern
    is not anchored on the left, so the capture starts after the first
    "on ", which here ends the name of the film, whereas the claim gives
    "Hulu", what follows the last "on "; the scraped page then lists the
    tiers under the key "on Hulu". *)
Lemma provider_name_not_after_last_on :
  providerNameOf (alone (sample_li "ott_filter_hd" "Watch Movie on Netflix"))
  = claimed_provider_name "Watch Movie on Netflix" /\
  claimed_provider_name "Watch Movie on Netflix" = Some "Netflix" /\
  providerNameOf (alone (sample_li "ott_filter_hd" "Watch Napoleon on Hulu"))
  = Some "on Hulu" /\
  claimed_provider_name "Watch Napoleon on Hulu" = Some "Hulu" /\
  @extract (sample_platform (Text "") ok_reply)
     (sample_page [sample_li "ott_filter_hd" "Watch Napoleon on Hulu"])
  = Return (mkResult (Some "https://www.justwatch.com/us/movie/foo")
                     [("on Hulu", [HD])]).
Proof.
  repeat split; reflexivity.
Qed.

Lemma one_fetch_no_fallback_witness :
  fst (@scrapeTmdbWatchPage (sample_platform (Text "") blocked_reply)
         sample_url [])
  = Return emptyResult /\
  fst (@scrapeTmdbWatchPage_proxied (sample_platform (Text "") Rejected)
         sample_url [])
  = Return emptyResult.
Proof.
  split.
  - apply (@one_fetch_no_fallback (sample_platform (Text "") blocked_reply)).
    right. exists (mkResponse false 403 "Forbidden"). split; reflexivity.
  - apply (@one_fetch_no_fallback (sample_platform (Text "") Rejected)).
    left. reflexivity.
Defined.

(** C4 as stated fails: when the direct GET is blocked, the direct variant
    returns the empty result after that single request, and the request
    through the proxy is never issued. *)
Lemma no_fallback_to_proxy :
  @not_retrievable (sample_platform (Text "") blocked_reply) sample_url /\
  @scrapeTmdbWatchPage (sample_platform (Text "") blocked_reply) sample_url []
  = (Return emptyResult, [mkRequest sample_url []]) /\
  ~ In (proxy_request sample_url)
       (snd (@scrapeTmdbWatchPage (sample_platform (Text "") blocked_reply)
               sample_url [])).
Proof.
  split; [|split].
  - right. exists (mkResponse false 403 "Forbidden"). split; reflexivity.
  - reflexivity.
  - simpl. intros [Heq|[]]. discriminate Heq.
Qed.

End ExtractorProps.

(** ** The handler of the relay *)

Module RelayProps.
Import Js Effects Extractor Relay.

Section WithPlatform.
Context `{Platform}.

(** C10.  Without [TMDB_API_KEY], every request, whatever its query and
    whatever the scraper of the variant, is answered with status 500, and
    nothing is fetched or scraped. *)
Theorem missing_key_is_server_error
  (scrape : string -> M ScrapeResult) (query : list (string * string))
  (log : list Request) :
  handler_with scrape None query log
  = (Return (mkRes 500
       (BodyText "Server configuration error: TMDB_API_KEY is not set.")),
     log).
Proof. reflexivity. Qed.

(** C9 (amended).  When [TMDB_API_KEY] is set: a request whose [endpoint]
    parameter is not empty runs the forwarding branch only, whether or not
    it has a [url] parameter (the scraper is not called and the one
    request issued is the one to the TMDB API); a request with neither
    parameter (missing or empty) gets status 400 and nothing is
    fetched. *)
Theorem endpoint_takes_precedence
  (scrape : string -> M ScrapeResult) (key : string)
  (query : list (string * string)) (log : list Request) :
  key <> ""%string ->
  (forall endpoint,
     str_get query "endpoint" = Some endpoint -> endpoint <> ""%string ->
     handler_with scrape (Some key) query log
     = try_catch (forward key endpoint query)
                 (fun error => ret (mkRes 500 (BodyError error))) log /\
     snd (handler_with scrape (Some key) query log)
     = log ++ [api_request key endpoint query]) /\
  (truthy (str_get query "endpoint") = false ->
   truthy (str_get query "url") = false ->
   handler_with scrape (Some key) query log
   = (Return (mkRes 400
        (BodyText "Bad Request: Please provide either an 'endpoint' or a 'url' query parameter.")),
      log)).
Proof.
  intros Hkey.
  assert (Hk : truthy (Some key) = true).
  { simpl. now destruct (String.eqb_spec key ""). }
  split.
  - intros endpoint Hget Hne.
    assert (He : truthy (Some endpoint) = true).
    { simpl. now destruct (String.eqb_spec endpoint ""). }
    assert (Heq : handler_with scrape (Some key) query log
                  = try_catch (forward key endpoint query)
                      (fun error => ret (mkRes 500 (BodyError error))) log).
    { unfold handler_with. rewrite Hk, Hget, He. reflexivity. }
    split; [exact Heq|]. rewrite Heq.
    unfold try_catch, forward, bind, fetch.
    destruct (network (api_request key endpoint query)) as [|resp];
      [reflexivity|].
    destruct (negb (ok resp)); [reflexivity|].
    destruct (JSON_parse (text resp)); reflexivity.
  - intros He Hu. unfold handler_with. rewrite Hk, He, Hu. reflexivity.
Qed.

End WithPlatform.

#[local] Existing Instance relay_platform.

Lemma endpoint_takes_precedence_witness :
  snd (@handler relay_platform (Some "secret")
         [("endpoint", "search/multi"); ("query", "foo");
          ("url", sample_url)] [])
  = [@api_request relay_platform "secret" "search/multi"
       [("endpoint", "search/multi"); ("query", "foo"); ("url", sample_url)]]
  /\
  res_status
    (match fst (@handler relay_platform (Some "secret") [("query", "foo")] [])
     with
     | Return r => r
     | Throw e => mkRes 0 (BodyError e)
     end) = 400%Z.
Proof.
  destruct (@endpoint_takes_precedence relay_platform scrapeTmdbWatchPage
              "secret" [("endpoint", "search/multi"); ("query", "foo");
                        ("url", sample_url)] [])
    as [Hforward _]; [discriminate|].
  destruct (@endpoint_takes_precedence relay_platform scrapeTmdbWatchPage
              "secret" [("query", "foo")] [])
    as [_ Hbad]; [discriminate|].
  split.
  - apply (Hforward "search/multi"); [reflexivity|discriminate].
  - unfold handler. rewrite Hbad; reflexivity.
Defined.

(** C9 as stated fails: without the key, a request with neither parameter
    gets status 500, not 400; and with the key, an [endpoint] parameter
    that is empty does not take precedence, the URL is scraped. *)
Lemma bad_request_needs_the_key :
  res_status
    (match fst (@handler relay_platform None [] []) with
     | Return r => r
     | Throw e => mkRes 0 (BodyError e)
     end) = 500%Z /\
  @handler relay_platform (Some "secret")
     [("endpoint", ""); ("url", sample_url)] []
  = (Return (mkRes 200 (BodyScraped emptyResult)),
     [mkRequest sample_url []]).
Proof.
  split; reflexivity.
Qed.

End RelayProps.

(** ** Lazy enrichment of the country tags *)

Module ClientProps.
Import Js Effects Extractor Client.

Lemma Tag_eqb_eq (a b : Tag) : Tag_eqb a b = true <-> a = b.
Proof.
  unfold Tag_eqb. destruct a as [i c], b as [j d]. simpl.
  rewrite andb_true_iff, Nat.eqb_eq, String.eqb_eq.
  split; [intros [-> ->]; reflexivity|intros [= -> ->]; auto].
Qed.

Lemma Tag_eqb_neq (a b : Tag) : Tag_eqb a b = false <-> a <> b.
Proof.
  rewrite <- Tag_eqb_eq. destruct (Tag_eqb a b); split; congruence.
Qed.

Lemma remove_nth_In {A : Type} (i : nat) (l : list A) (x : A) :
  In x (remove_nth i l) -> In x l.
Proof.
  revert i. induction l as [|y l IH]; intros [|i]; simpl; auto.
  intros [->|Hin]; [auto|]. right. now apply (IH i).
Qed.

Section Title.
Variables mediaType tmdbId : string.

Lemma click_completed (t t0 : Tag) (p : Page) :
  completed t p ->
  completed t (click mediaType tmdbId t0 p) /\
  detail (dropdowns (click mediaType tmdbId t0 p) t) = detail (dropdowns p t) /\
  requests_of_tag t (click mediaType tmdbId t0 p) = requests_of_tag t p.
Proof.
  intros [Hst Hpend]. unfold click, completed, requests_of_tag.
  destruct (show (dropdowns p t0)); simpl.
  - rewrite Hst. auto.
  - unfold set_dropdown. rewrite (proj2 (Tag_eqb_eq t0 t0) eq_refl).
    cbn [set_show jw_status].
    destruct (Tag_eqb t0 t) eqn:E.
    + apply Tag_eqb_eq in E. subst t0. rewrite Hst. cbn.
      rewrite (proj2 (Tag_eqb_eq t t) eq_refl). cbn. rewrite Hst. auto.
    + assert (E' : Tag_eqb t t0 = false).
      { apply Tag_eqb_neq. apply Tag_eqb_neq in E. congruence. }
      apply Tag_eqb_neq in E.
      destruct (jw_status (dropdowns p t0)); cbn;
        rewrite (proj2 (Tag_eqb_neq t0 t) E); cbn; rewrite ?Hst.
      * repeat split; auto.
        -- rewrite in_app_iff. simpl. intuition congruence.
        -- rewrite filter_app. simpl. rewrite E'. apply app_nil_r.
      * repeat split; auto.
Qed.

Lemma settle_completed (t : Tag) (i : nat) (r : ScrapeResult) (p : Page) :
  completed t p ->
  completed t (settle i r p) /\
  detail (dropdowns (settle i r p) t) = detail (dropdowns p t) /\
  requests_of_tag t (settle i r p) = requests_of_tag t p.
Proof.
  intros [Hst Hpend]. unfold settle, completed, requests_of_tag.
  destruct (nth_error (pending p) i) as [t0|] eqn:E; simpl; [|auto].
  apply nth_error_In in E.
  assert (Hne : Tag_eqb t0 t = false) by (apply Tag_eqb_neq; congruence).
  unfold set_dropdown. rewrite Hne. repeat split; auto.
  intros Hin. apply Hpend. now apply (remove_nth_In i).
Qed.

(** C6 (amended).  Each country tag (one per provider and country) has a
    dropdown of its own.  Once the enrichment of a tag has completed and
    none is in flight for it, whatever is clicked and whatever settles
    afterwards, the detail shown for the tag stays the same and no watch
    page is requested for it again.  A click requests a watch page exactly
    when the dropdown of the tag was closed and its status is still
    [loading]. *)
Theorem completed_tag_is_not_fetched_again
  (t : Tag) (p : Page) (es : list Event) :
  jw_status (dropdowns p t) = loaded -> ~ In t (pending p) ->
  (detail (dropdowns (run mediaType tmdbId es p) t) = detail (dropdowns p t) /\
   requests_of_tag t (run mediaType tmdbId es p) = requests_of_tag t p /\
   ~ In t (pending (run mediaType tmdbId es p))) /\
  (forall t0 q,
     requested (click mediaType tmdbId t0 q)
     = if negb (show (dropdowns q t0))
          && match jw_status (dropdowns q t0) with
             | loading => true
             | loaded => false
             end
       then requested q ++ [(t0, tmdbLinkUrl mediaType tmdbId (snd t0))]
       else requested q).
Proof.
  intros Hst Hpend. split.
  - assert (Hc : completed t p) by (split; assumption). clear Hst Hpend.
    revert p Hc. unfold run.
    induction es as [|e es IH]; intros p Hc; simpl.
    + destruct Hc. auto.
    + assert (Hstep : completed t (step mediaType tmdbId p e) /\
                      detail (dropdowns (step mediaType tmdbId p e) t)
                      = detail (dropdowns p t) /\
                      requests_of_tag t (step mediaType tmdbId p e)
                      = requests_of_tag t p).
      { destruct e as [t0|i r]; simpl;
          [now apply click_completed|now apply settle_completed]. }
      destruct Hstep as (Hc' & Hd & Hr).
      destruct (IH _ Hc') as (Hd' & Hr' & Hp').
      rewrite Hd', Hr', Hd, Hr. auto.
  - intros t0 q. unfold click.
    destruct (show (dropdowns q t0)); simpl; [reflexivity|].
    unfold set_dropdown. rewrite (proj2 (Tag_eqb_eq t0 t0) eq_refl). simpl.
    destruct (jw_status (dropdowns q t0)); reflexivity.
Qed.

End Title.

Lemma completed_tag_is_not_fetched_again_witness :
  requests_of_tag us_netflix
    (run "movie" "27205"
       [Click us_netflix; Click us_netflix; Click us_hulu; Click us_netflix]
       (run "movie" "27205" [Click us_netflix; Settle 0 sample_result]
            initial))
  = [(us_netflix, "https://www.themoviedb.org/movie/27205/watch?locale=US")].
Proof.
  rewrite (proj1 (proj2 (proj1
    (completed_tag_is_not_fetched_again "movie" "27205" us_netflix
       (run "movie" "27205" [Click us_netflix; Settle 0 sample_result]
            initial)
       [Click us_netflix; Click us_netflix; Click us_hulu; Click us_netflix]
       eq_refl
       (fun H : In us_netflix [] => H))))).
  reflexivity.
Defined.

(** C6 as stated fails: the same country under two providers has two tags,
    and expanding the second one requests the same watch page again, after
    the first enrichment has completed. *)
Lemma same_country_is_fetched_twice :
  requested (run "movie" "27205"
               [Click us_netflix; Settle 0 sample_result; Click us_hulu]
               initial)
  = [(us_netflix, "https://www.themoviedb.org/movie/27205/watch?locale=US");
     (us_hulu, "https://www.themoviedb.org/movie/27205/watch?locale=US")] /\
  ~ one_fetch_per_country "movie" "27205"
      [Click us_netflix; Settle 0 sample_result; Click us_hulu].
Proof.
  split; [reflexivity|].
  intros Hone. specialize (Hone "US"%string). vm_compute in Hone. lia.
Qed.

(** Closing and reopening a tag whose enrichment is still in flight
    requests the watch page again: the status stays [loading] until the
    first answer arrives. *)
Lemma reopening_in_flight_fetches_again :
  requests_of_tag us_netflix
    (run "movie" "27205"
       [Click us_netflix; Click us_netflix; Click us_netflix] initial)
  = [(us_netflix, "https://www.themoviedb.org/movie/27205/watch?locale=US");
     (us_netflix, "https://www.themoviedb.org/movie/27205/watch?locale=US")].
Proof. reflexivity. Qed.

End ClientProps.

(** ** What [displayResults] groups and renders *)

Module ResultsProps.
Import Js Aggregator Results JsFacts AggregatorProps.

Lemma Set_has_In (c : string) (s : list string) :
  Set_has String.eqb c s = true <-> In c s.
Proof.
  unfold Set_has. rewrite existsb_exists. split.
  - intros (x & Hx & E). apply String.eqb_eq in E. now subst.
  - intros H. exists c. split; [exact H|apply String.eqb_refl].
Qed.

Lemma Set_add_In (c x : string) (s : list string) :
  In x (Set_add String.eqb c s) <-> In x s \/ x = c.
Proof.
  unfold Set_add. destruct (Set_has String.eqb c s) eqn:E.
  - apply Set_has_In in E. split; [auto|]. intros [H| ->]; assumption.
  - rewrite in_app_iff. simpl. intuition.
Qed.

Lemma Set_add_NoDup_str (c : string) (s : list string) :
  NoDup s -> NoDup (Set_add String.eqb c s).
Proof.
  intros Hs. unfold Set_add. destruct (Set_has String.eqb c s) eqn:E.
  - exact Hs.
  - apply (Permutation_NoDup (Permutation_cons_append _ _)).
    constructor; [|exact Hs]. intros Hin.
    apply Set_has_In in Hin. congruence.
Qed.

Lemma fold_add_In (l s : list string) (x : string) :
  In x (fold_left (fun s c => Set_add String.eqb c s) l s)
  <-> In x s \/ In x l.
Proof.
  revert s. induction l as [|c l IH]; intros s; simpl.
  - tauto.
  - rewrite IH, Set_add_In. intuition.
Qed.

Lemma fold_add_NoDup (l s : list string) :
  NoDup s -> NoDup (fold_left (fun s c => Set_add String.eqb c s) l s).
Proof.
  revert s. induction l as [|c l IH]; intros s Hs; simpl; [exact Hs|].
  apply IH. now apply Set_add_NoDup_str.
Qed.

Lemma fold_add_snoc (l : list string) (c : string) (s : list string) :
  fold_left (fun s c => Set_add String.eqb c s) (l ++ [c]) s
  = Set_add String.eqb c (fold_left (fun s c => Set_add String.eqb c s) l s).
Proof. now rewrite fold_left_app. Qed.

Lemma find_snoc {A : Type} (f : A -> bool) (l : list A) (x : A) :
  find f (l ++ [x])
  = match find f l with
    | Some y => Some y
    | None => if f x then Some x else None
    end.
Proof.
  induction l as [|y l IH]; simpl; [reflexivity|].
  now destruct (f y).
Qed.

Lemma find_none_filter {A : Type} (f : A -> bool) (l : list A) :
  find f l = None -> filter f l = [].
Proof.
  induction l as [|y l IH]; simpl; [reflexivity|].
  destruct (f y); [discriminate|exact IH].
Qed.

Lemma num_get_of_In {V : Type} (o : list (N * V)) (k : N) (v : V) :
  NoDup (map fst o) -> In (k, v) o -> num_get o k = Some v.
Proof.
  induction o as [|[k0 v0] o IH]; simpl; intros Hnd Hin; [contradiction|].
  inversion Hnd as [|? ? Hk0 Hnd']; subst.
  destruct Hin as [[= -> ->]|Hin].
  - now rewrite N.eqb_refl.
  - destruct (N.eqb_spec k0 k) as [->|Hne].
    + exfalso. apply Hk0. change k with (fst (k, v)). now apply in_map.
    + now apply IH.
Qed.

Lemma num_get_add_offer (c : string) pm (p : Offer) (k : N) :
  num_get (add_offer c pm p) k
  = if (provider_id p =? k)%N
    then Some (add_country c
                 match num_get pm (provider_id p) with
                 | Some e => e
                 | None => mkEntry (provider_name p) (logo_path p) []
                 end)
    else num_get pm k.
Proof.
  unfold add_offer. rewrite num_get_update.
  destruct (num_get pm (provider_id p)) as [e|] eqn:E.
  - rewrite E. reflexivity.
  - rewrite !num_get_app, E, N.eqb_refl. simpl.
    destruct (N.eqb_spec (provider_id p) k) as [Hk|Hk]; [reflexivity|].
    destruct (num_get pm k); reflexivity.
Qed.

Lemma describes_step l pm (cp : string * Offer) :
  describes l pm -> describes (l ++ [cp]) (add_pair pm cp).
Proof.
  intros Hd k. unfold add_pair. rewrite num_get_add_offer, find_snoc.
  unfold offers_of_provider. rewrite filter_app. simpl.
  destruct (N.eqb_spec (provider_id (snd cp)) k) as [Hk|Hk].
  - subst k. rewrite (Hd (provider_id (snd cp))).
    destruct (find _ l) as [cp0|] eqn:E; unfold add_country; simpl.
    + unfold first_occurrences. rewrite map_app. simpl.
      now rewrite fold_add_snoc.
    + rewrite (find_none_filter _ _ E). reflexivity.
  - rewrite (Hd k), app_nil_r. destruct (find _ l); reflexivity.
Qed.

Lemma describes_fold l0 l pm :
  describes l0 pm -> describes (l0 ++ l) (fold_left add_pair l pm).
Proof.
  revert l0 pm. induction l as [|cp l IH]; intros l0 pm Hd; simpl.
  - now rewrite app_nil_r.
  - change (l0 ++ cp :: l) with (l0 ++ [cp] ++ l). rewrite app_assoc.
    apply IH. now apply describes_step.
Qed.

Lemma groupByProvider_describes (raw : RawAvailability) :
  NoDup (Object_keys raw) -> describes (flat_offers raw) (groupByProvider raw).
Proof.
  intros Hnd. rewrite groupByProvider_flat by assumption.
  apply (describes_fold [] (flat_offers raw) []).
  intros k. reflexivity.
Qed.

Lemma sortedProviderEntries_In (raw : RawAvailability) (k : N) e :
  In (k, e) (sortedProviderEntries (Some raw))
  <-> num_get (groupByProvider raw) k = Some e.
Proof.
  rewrite sortedProviderEntries_eq. split.
  - intros Hin.
    apply (Permutation_in _ (Array_sort_perm _ _)) in Hin.
    apply (Permutation_in _ (Object_entries_perm _)) in Hin.
    apply num_get_of_In; [apply groupByProvider_keys|exact Hin].
  - intros Hget. apply num_get_In in Hget.
    apply (Permutation_in _ (Permutation_sym (Array_sort_perm _ _))).
    apply (Permutation_in _ (Permutation_sym (Object_entries_perm _))).
    exact Hget.
Qed.

Lemma offers_of_provider_In (k : N) (raw : RawAvailability) (c : string) :
  In c (map fst (offers_of_provider k (flat_offers raw)))
  <-> In (c, k) (offer_pairs raw).
Proof.
  rewrite offer_pairs_flat. unfold offers_of_provider.
  rewrite !in_map_iff. split.
  - intros ([c' p] & <- & Hin). apply filter_In in Hin.
    destruct Hin as [Hin Hk]. simpl in *. apply N.eqb_eq in Hk.
    exists (c', p). simpl. split; [congruence|exact Hin].
  - intros ([c' p] & [= <- <-] & Hin). exists (c', p).
    split; [reflexivity|]. apply filter_In. split; [exact Hin|].
    simpl. apply N.eqb_refl.
Qed.

Lemma find_some_In_filter {A : Type} (f : A -> bool) (l : list A) (x : A) :
  find f l = Some x -> In x (filter f l).
Proof.
  intros H. apply find_some in H. apply filter_In. exact H.
Qed.

Lemma groupByProvider_entry (raw : RawAvailability) (k : N)
  (e : ProviderEntry) :
  NoDup (Object_keys raw) ->
  num_get (groupByProvider raw) k = Some e ->
  NoDup (countries e) /\ countries e <> [] /\
  forall c, In c (countries e) <-> In (c, k) (offer_pairs raw).
Proof.
  intros Hnd Hget. rewrite (groupByProvider_describes raw Hnd k) in Hget.
  destruct (find _ (flat_offers raw)) as [cp|] eqn:Hfind; [|discriminate].
  injection Hget as <-. simpl. unfold first_occurrences. split; [|split].
  - apply fold_add_NoDup. constructor.
  - apply find_some_In_filter in Hfind. intros Hnil.
    assert (Hc : In (fst cp)
                   (fold_left (fun s c => Set_add String.eqb c s)
                      (map fst (offers_of_provider k (flat_offers raw)))
                      [])).
    { apply fold_add_In. right. now apply in_map. }
    rewrite Hnil in Hc. exact Hc.
  - intros c. rewrite fold_add_In, offers_of_provider_In. simpl. tauto.
Qed.

Lemma groupByProvider_ids (raw : RawAvailability) (k : N) :
  NoDup (Object_keys raw) ->
  In k (map fst (groupByProvider raw)) <-> In k (ids_of raw).
Proof.
  intros Hnd. pose proof (groupByProvider_describes raw Hnd k) as Hd.
  unfold ids_of. rewrite offer_pairs_flat, map_map. simpl. split.
  - intros Hin. apply in_map_iff in Hin. destruct Hin as ([k' e] & Hk & Hin).
    simpl in Hk. subst k'.
    apply (num_get_of_In _ _ _ (groupByProvider_keys raw)) in Hin.
    rewrite Hd in Hin.
    destruct (find _ (flat_offers raw)) as [cp|] eqn:E; [|discriminate].
    apply find_some in E. destruct E as [Hin' Hk]. apply N.eqb_eq in Hk.
    apply in_map_iff. exists cp. auto.
  - intros Hin. apply in_map_iff in Hin. destruct Hin as (cp & Hk & Hin).
    destruct (find (fun cp => (provider_id (snd cp) =? k)%N)
                   (flat_offers raw)) as [cp0|] eqn:E.
    + rewrite ?E in Hd. apply num_get_In in Hd.
      apply in_map_iff. eexists. split; [|exact Hd]. reflexivity.
    + pose proof (find_none _ _ E cp Hin) as Hf. simpl in Hf.
      apply N.eqb_neq in Hf. contradiction.
Qed.

(** X1.  The grouping is exact.  For an input object (distinct country
    keys), the rendered sequence has one entry per provider id that
    occurs in a flatrate list, and none else; the [countries] of the entry
    of provider [k] are, without repetition, exactly the countries whose
    flatrate list names [k], so no entry is without countries. *)
Theorem grouping_is_exact (raw : RawAvailability) :
  NoDup (Object_keys raw) ->
  NoDup (map fst (sortedProviderEntries (Some raw))) /\
  (forall k,
     In k (map fst (sortedProviderEntries (Some raw)))
     <-> In k (ids_of raw)) /\
  (forall k e,
     In (k, e) (sortedProviderEntries (Some raw)) ->
     NoDup (countries e) /\ countries e <> [] /\
     forall c, In c (countries e) <-> In (c, k) (offer_pairs raw)).
Proof.
  intros Hnd.
  assert (Hperm : Permutation (sortedProviderEntries (Some raw))
                              (groupByProvider raw)).
  { rewrite sortedProviderEntries_eq.
    rewrite Array_sort_perm. apply Object_entries_perm. }
  split; [|split].
  - apply (Permutation_NoDup (Permutation_map fst (Permutation_sym Hperm))).
    apply groupByProvider_keys.
  - intros k. rewrite <- (groupByProvider_ids raw k Hnd). split;
      apply Permutation_in, Permutation_map;
      [exact Hperm|exact (Permutation_sym Hperm)].
  - intros k e Hin. apply sortedProviderEntries_In in Hin.
    now apply groupByProvider_entry.
Qed.

Lemma grouping_is_exact_witness :
  In 337%N (map fst (sortedProviderEntries (Some raw_sample))) /\
  NoDup (map fst (sortedProviderEntries (Some raw_sample))).
Proof.
  assert (Hnd : NoDup (Object_keys raw_sample)).
  { unfold Object_keys. simpl.
    repeat (constructor; [simpl; intuition discriminate|]). constructor. }
  destruct (grouping_is_exact raw_sample Hnd) as (Hkeys & Hids & _).
  split; [|exact Hkeys].
  apply Hids. unfold ids_of. simpl. auto.
Defined.

(** X2.  The first offer wins.  For an input object (distinct country
    keys), the entry of a provider keeps the name and the logo of the
    first offer that names the provider in the traversal, whatever later
    offers say, and lists its countries in the order in which the
    traversal first meets them. *)
Theorem first_offer_names_the_entry (raw : RawAvailability) (k : N)
  (e : ProviderEntry) :
  NoDup (Object_keys raw) ->
  In (k, e) (sortedProviderEntries (Some raw)) ->
  exists c p,
    find (fun cp => (provider_id (snd cp) =? k)%N) (flat_offers raw)
    = Some (c, p) /\
    name e = provider_name p /\
    logo e = logo_path p /\
    countries e
    = first_occurrences (map fst (offers_of_provider k (flat_offers raw))) /\
    hd_error (countries e) = Some c.
Proof.
  intros Hnd Hin. pose proof (groupByProvider_describes raw Hnd k) as Hd.
  apply sortedProviderEntries_In in Hin. rewrite Hd in Hin.
  destruct (find _ (flat_offers raw)) as [[c p]|] eqn:E; [|discriminate].
  injection Hin as <-. exists c, p. simpl.
  repeat split; try reflexivity.
  clear Hd. unfold offers_of_provider, first_occurrences.
  induction (flat_offers raw) as [|[c0 p0] l IH]; simpl in *; [discriminate|].
  destruct (provider_id p0 =? k)%N.
  - injection E as -> ->. simpl.
    assert (H : forall l s c1, hd_error s = Some c1 ->
              hd_error (fold_left (fun s c => Set_add String.eqb c s) l s)
              = Some c1).
    { clear. induction l as [|x l IH]; intros s c1 Hs; simpl; [exact Hs|].
      apply IH. unfold Set_add. destruct (Set_has String.eqb x s);
        [exact Hs|]. destruct s; [discriminate|exact Hs]. }
    apply H. reflexivity.
  - now apply IH.
Qed.

Lemma first_offer_names_the_entry_witness :
  exists c p,
    find (fun cp => (provider_id (snd cp) =? 8)%N) (flat_offers raw_sample)
    = Some (c, p) /\
    name (mkEntry "Netflix" "/logo.png" ["US"; "FR"]) = provider_name p /\
    logo (mkEntry "Netflix" "/logo.png" ["US"; "FR"]) = logo_path p /\
    countries (mkEntry "Netflix" "/logo.png" ["US"; "FR"])
    = first_occurrences
        (map fst (offers_of_provider 8 (flat_offers raw_sample))) /\
    hd_error (countries (mkEntry "Netflix" "/logo.png" ["US"; "FR"]))
    = Some c.
Proof.
  apply (first_offer_names_the_entry raw_sample 8%N).
  - unfold Object_keys. simpl.
    repeat (constructor; [simpl; intuition discriminate|]). constructor.
  - left. reflexivity.
Defined.

Lemma providerView_facts (displayNamesOf : string -> option string)
  (localeCompare : string -> string -> Z) (e : ProviderEntry) :
  NoDup (countries e) -> countries e <> [] ->
  let pv := providerView displayNamesOf localeCompare e in
  pv_count pv = List.length (pv_tags pv) /\
  1 <= pv_count pv /\
  NoDup (map tag_code (pv_tags pv)) /\
  (pv_noun pv = "country"%string <-> pv_count pv = 1).
Proof.
  intros Hnd Hne. simpl.
  assert (Hperm : Permutation (sortedCountries displayNamesOf localeCompare e)
                              (countries e)) by apply Array_sort_perm.
  split; [|split; [|split]].
  - rewrite length_map. unfold Set_size.
    symmetry. now apply Permutation_length.
  - unfold Set_size. destruct (countries e); [contradiction|simpl; lia].
  - rewrite map_map. simpl. rewrite map_id.
    apply (Permutation_NoDup (Permutation_sym Hperm)). exact Hnd.
  - destruct (Nat.eqb_spec (Set_size (countries e)) 1); split;
      try discriminate; auto; contradiction.
Qed.

(** X3.  What the results container shows, for an input object (distinct
    country keys).  "Not available in any country" is shown exactly when
    the object has no country; "not available on any subscription
    service" exactly when it has countries but no flatrate offer at all;
    otherwise the provider list is not empty, it has one item per distinct
    provider id, and in each item the number in the label is the number of
    country tags, which is at least one, no country is tagged twice, and
    the noun is singular exactly for one country. *)
Theorem results_view_cases
  (displayNamesOf : string -> option string)
  (localeCompare : string -> string -> Z) (raw : RawAvailability) :
  NoDup (Object_keys raw) ->
  (displayResults displayNamesOf localeCompare (Some raw)
   = NotAvailableAnywhere <-> raw = []) /\
  (displayResults displayNamesOf localeCompare (Some raw) = NoSubscription
   <-> raw <> [] /\ offer_pairs raw = []) /\
  (forall items,
     displayResults displayNamesOf localeCompare (Some raw)
     = ProviderList items ->
     items <> [] /\
     List.length items = List.length (nodup N.eq_dec (ids_of raw)) /\
     forall pv, In pv items ->
       pv_count pv = List.length (pv_tags pv) /\
       1 <= pv_count pv /\
       NoDup (map tag_code (pv_tags pv)) /\
       (pv_noun pv = "country"%string <-> pv_count pv = 1)).
Proof.
  intros Hnd.
  assert (Hempty : groupByProvider raw = [] <-> offer_pairs raw = []).
  { split; intros H.
    - destruct (offer_pairs raw) as [|[c k] l] eqn:E; [reflexivity|].
      assert (Hin : In k (ids_of raw)) by (unfold ids_of; rewrite E; now left).
      apply (groupByProvider_ids raw k Hnd) in Hin. rewrite H in Hin.
      destruct Hin.
    - destruct (groupByProvider raw) as [|[k e] l] eqn:E; [reflexivity|].
      assert (Hin : In k (ids_of raw)).
      { apply (groupByProvider_ids raw k Hnd). rewrite E. now left. }
      unfold ids_of in Hin. rewrite H in Hin. destruct Hin. }
  unfold displayResults. destruct raw as [|x raw]; simpl Object_keys.
  - simpl. repeat split; try discriminate; auto. intros [H _]. congruence.
  - cbn [List.length map Nat.eqb].
    destruct (groupByProvider (x :: raw)) as [|y pm] eqn:E.
    + simpl. repeat split; try discriminate; auto.
      now apply Hempty.
    + cbn [List.length Nat.eqb]. split; [|split].
      * split; discriminate.
      * split; [discriminate|]. intros [_ H]. apply Hempty in H.
        discriminate.
      * intros items [= <-].
        assert (Hperm : Permutation
                  (Array_sort by_country_count (Object_values (y :: pm)))
                  (map snd (y :: pm))).
        { rewrite Array_sort_perm. unfold Object_values.
          apply Permutation_map, Object_entries_perm. }
        split; [|split].
        -- intros Hnil. apply (f_equal (@List.length _)) in Hnil.
           rewrite length_map, (Permutation_length Hperm) in Hnil.
           discriminate.
        -- rewrite length_map, (Permutation_length Hperm), length_map.
           rewrite <- (length_map fst). apply Permutation_length.
           apply NoDup_Permutation.
           ++ rewrite <- E. apply groupByProvider_keys.
           ++ apply NoDup_nodup.
           ++ intros k. rewrite nodup_In, <- E.
              apply groupByProvider_ids. exact Hnd.
        -- intros pv Hpv. apply in_map_iff in Hpv.
           destruct Hpv as (e & <- & He).
           apply (Permutation_in _ Hperm) in He. apply in_map_iff in He.
           destruct He as ([k e'] & He' & Hin). simpl in He'. subst e'.
           rewrite <- E in Hin.
           apply (num_get_of_In _ _ _ (groupByProvider_keys _)) in Hin.
           destruct (groupByProvider_entry _ _ _ Hnd Hin) as (H1 & H2 & _).
           now apply providerView_facts.
Qed.

Lemma results_view_cases_witness :
  displayResults sample_names codeUnitCompare (Some raw_without_flatrate)
  = NoSubscription.
Proof.
  apply (results_view_cases sample_names codeUnitCompare raw_without_flatrate).
  - unfold Object_keys. simpl.
    repeat (constructor; [simpl; intuition discriminate|]). constructor.
  - split; [discriminate|reflexivity].
Defined.

End ResultsProps.

(** ** What the scraper reads from a page *)

Module OffersProps.
Import Js Dom Effects Extractor Offers JsFacts ExtractorProps.

Lemma forEach_app {X S : Type} (f : X -> S -> Outcome S) (l1 l2 : list X)
  (s : S) :
  forEach f (l1 ++ l2) s
  = match forEach f l1 s with
    | Return s' => forEach f l2 s'
    | Throw e => Throw e
    end.
Proof.
  revert s. induction l1 as [|x l1 IH]; intros s; simpl; [reflexivity|].
  destruct (f x s); [apply IH|reflexivity].
Qed.

Lemma processSection_stream (section : Path) (info : ProvidersInfo) :
  stream_heading section = true ->
  processSection section info
  = forEach processOffer (querySelectorAll section offerSelector) info.
Proof.
  unfold stream_heading, processSection.
  destruct (querySelector section (Compound [Tag "h3"])); [|discriminate].
  now intros ->.
Qed.

Lemma sections_are_offers (sections : list Path) (info : ProvidersInfo) :
  forEach processSection sections info
  = forEach processOffer
      (flat_map (fun section => querySelectorAll section offerSelector)
                (filter stream_heading sections)) info.
Proof.
  revert info. induction sections as [|section l IH]; intros info; simpl;
    [reflexivity|].
  destruct (stream_heading section) eqn:E.
  - simpl. rewrite forEach_app, (processSection_stream _ _ E).
    destruct (forEach processOffer _ info); [apply IH|reflexivity].
  - rewrite (processSection_skip _ _ E). apply IH.
Qed.

Lemma add_if_marked_absent li name (qs : list Quality) (info : ProvidersInfo) :
  str_get info name = None ->
  (filter (fun q => classList_contains (node_of li) (marker q)) qs = [] /\
   forEach (add_if_marked li name) qs info = Return info) \/
  (filter (fun q => classList_contains (node_of li) (marker q)) qs <> [] /\
   forEach (add_if_marked li name) qs info = Throw TypeError).
Proof.
  intros Hget. induction qs as [|q qs IH]; simpl; [now left|].
  unfold add_if_marked at 1 3.
  destruct (classList_contains (node_of li) (marker q)).
  - right. unfold stream_add. rewrite Hget. split; [discriminate|reflexivity].
  - exact IH.
Qed.

(** One list item, seen from the entry of a provider whose name is not
    inherited. *)
Lemma processOffer_tiers li info info1 name :
  processOffer li info = Return info1 ->
  inherited name = false ->
  tiers info1 name
  = if is_named name li then add_tiers (li_markers li) (tiers info name)
    else tiers info name.
Proof.
  unfold processOffer, is_named, tiers, add_tiers, li_markers.
  destruct (providerNameOf li) as [n|]; [|now intros [= <-]].
  intros Hret Hname. unfold truthy_at in Hret.
  destruct (String.eqb_spec n name) as [->|Hne].
  - destruct (str_get info name) as [s|] eqn:Hget.
    + destruct (add_markers li name [Q4K; HD; SD] info s Hget)
        as (info' & H1 & H2 & _).
      rewrite H1 in Hret. injection Hret as <-. now rewrite H2.
    + unfold inherited in Hname. rewrite Hname in Hret.
      destruct (add_markers li name [Q4K; HD; SD]
                  (info ++ [(name, [])]) []) as (info' & H1 & H2 & _).
      { rewrite str_get_app, Hget, String.eqb_refl. reflexivity. }
      rewrite H1 in Hret. injection Hret as <-. now rewrite H2.
  - destruct (str_get info n) as [s|] eqn:Hget.
    + destruct (add_markers li n [Q4K; HD; SD] info s Hget)
        as (info' & H1 & _ & H3).
      rewrite H1 in Hret. injection Hret as <-.
      rewrite (H3 name) by congruence. reflexivity.
    + destruct (existsb (String.eqb n) Object_prototype_names).
      * destruct (add_if_marked_absent li n [Q4K; HD; SD] info Hget)
          as [[_ H1]|[_ H1]]; rewrite H1 in Hret; [|discriminate].
        injection Hret as <-. reflexivity.
      * destruct (add_markers li n [Q4K; HD; SD]
                    (info ++ [(n, [])]) []) as (info' & H1 & _ & H3).
        { rewrite str_get_app, Hget, String.eqb_refl. reflexivity. }
        rewrite H1 in Hret. injection Hret as <-.
        rewrite (H3 name) by congruence. rewrite str_get_app.
        destruct (str_get info name); [reflexivity|].
        destruct (String.eqb_spec n name); [contradiction|reflexivity].
Qed.

Lemma offers_tiers (lis : list Path) info info' name :
  forEach processOffer lis info = Return info' ->
  inherited name = false ->
  tiers info' name
  = add_tiers (flat_map li_markers (filter (is_named name) lis))
              (tiers info name).
Proof.
  revert info. induction lis as [|li lis IH]; intros info Hret Hname; simpl.
  - simpl in Hret. now injection Hret as <-.
  - simpl in Hret. destruct (processOffer li info) as [info1|] eqn:E;
      [|discriminate].
    rewrite (IH info1 Hret Hname), (processOffer_tiers _ _ _ _ E Hname).
    destruct (is_named name li); [|reflexivity].
    simpl. unfold add_tiers. now rewrite fold_left_app.
Qed.

Lemma add_tiers_In (qs s : list Quality) (q : Quality) :
  In q (add_tiers qs s) <-> In q s \/ In q qs.
Proof.
  unfold add_tiers. revert s. induction qs as [|x qs IH]; intros s; simpl.
  - tauto.
  - rewrite IH. unfold Set_add, Set_has.
    destruct (existsb (Quality_eqb x) s) eqn:E.
    + apply existsb_exists in E. destruct E as (y & Hy & E).
      apply Quality_eqb_eq in E. subst y. intuition (subst; auto).
    + rewrite in_app_iff. simpl. intuition.
Qed.

Lemma li_markers_In (li : Path) (q : Quality) :
  In q (li_markers li) <-> classList_contains (node_of li) (marker q) = true.
Proof.
  unfold li_markers. rewrite filter_In. split; [tauto|].
  intros H. split; [|exact H]. destruct q; simpl; auto.
Qed.

Lemma processOffer_throw li info e :
  processOffer li info = Throw e -> e = TypeError /\ poisoned li = true.
Proof.
  unfold processOffer, poisoned, inherited, li_markers.
  destruct (providerNameOf li) as [n|]; [|discriminate].
  unfold truthy_at. destruct (str_get info n) as [s|] eqn:Hget.
  - destruct (add_markers li n [Q4K; HD; SD] info s Hget) as (i & H1 & _).
    rewrite H1. discriminate.
  - destruct (existsb (String.eqb n) Object_prototype_names).
    + destruct (add_if_marked_absent li n [Q4K; HD; SD] info Hget)
        as [[_ H1]|[Hm H1]]; rewrite H1; [discriminate|].
      intros [= <-]. split; [reflexivity|].
      destruct (filter _ [Q4K; HD; SD]); [contradiction|reflexivity].
    + destruct (add_markers li n [Q4K; HD; SD] (info ++ [(n, [])]) [])
        as (i & H1 & _).
      { rewrite str_get_app, Hget, String.eqb_refl. reflexivity. }
      rewrite H1. discriminate.
Qed.

(** No inherited name is an own property of [providersInfo]. *)
Lemma processOffer_inherited li info info1 :
  (forall n, inherited n = true -> str_get info n = None) ->
  processOffer li info = Return info1 ->
  forall n, inherited n = true -> str_get info1 n = None.
Proof.
  intros Hinv. unfold processOffer.
  destruct (providerNameOf li) as [m|]; [|now intros [= <-]].
  unfold truthy_at. destruct (str_get info m) as [s|] eqn:Hget.
  - destruct (add_markers li m [Q4K; HD; SD] info s Hget)
      as (i & H1 & _ & H3).
    rewrite H1. intros [= <-] n Hn.
    destruct (String.eqb_spec n m) as [->|Hne].
    + rewrite (Hinv m Hn) in Hget. discriminate.
    + rewrite (H3 n Hne). now apply Hinv.
  - destruct (existsb (String.eqb m) Object_prototype_names) eqn:Hm.
    + destruct (add_if_marked_absent li m [Q4K; HD; SD] info Hget)
        as [[_ H1]|[_ H1]]; rewrite H1; [|discriminate].
      intros [= <-]. exact Hinv.
    + destruct (add_markers li m [Q4K; HD; SD] (info ++ [(m, [])]) [])
        as (i & H1 & _ & H3).
      { rewrite str_get_app, Hget, String.eqb_refl. reflexivity. }
      rewrite H1. intros [= <-] n Hn.
      assert (Hne : n <> m).
      { intros ->. unfold inherited in Hn. congruence. }
      rewrite (H3 n Hne), str_get_app, (Hinv n Hn).
      destruct (String.eqb_spec m n); congruence.
Qed.

Lemma processOffer_poisoned li info :
  (forall n, inherited n = true -> str_get info n = None) ->
  poisoned li = true -> processOffer li info = Throw TypeError.
Proof.
  intros Hinv. unfold poisoned, processOffer, li_markers.
  destruct (providerNameOf li) as [n|]; [|discriminate].
  intros Hp. apply andb_prop in Hp. destruct Hp as [Hn Hm].
  unfold truthy_at. rewrite (Hinv n Hn). unfold inherited in Hn. rewrite Hn.
  destruct (add_if_marked_absent li n [Q4K; HD; SD] info (Hinv n Hn))
    as [[Hnil _]|[_ H1]]; [|exact H1].
  rewrite Hnil in Hm. discriminate.
Qed.

Lemma offers_throw (lis : list Path) info e :
  forEach processOffer lis info = Throw e ->
  e = TypeError /\ existsb poisoned lis = true.
Proof.
  revert info. induction lis as [|li lis IH]; intros info; simpl;
    [discriminate|].
  destruct (processOffer li info) as [info1|e1] eqn:E.
  - intros Hthrow. destruct (IH _ Hthrow) as [-> Hp].
    split; [reflexivity|]. rewrite Hp. apply orb_true_r.
  - intros [= <-]. destruct (processOffer_throw _ _ _ E) as [-> Hp].
    split; [reflexivity|]. now rewrite Hp.
Qed.

Lemma offers_poisoned (lis : list Path) info :
  (forall n, inherited n = true -> str_get info n = None) ->
  existsb poisoned lis = true ->
  forEach processOffer lis info = Throw TypeError.
Proof.
  revert info. induction lis as [|li lis IH]; intros info Hinv; simpl;
    [discriminate|].
  destruct (poisoned li) eqn:Hp; simpl.
  - intros _. now rewrite processOffer_poisoned.
  - intros Hex. destruct (processOffer li info) as [info1|e1] eqn:E.
    + apply IH; [|exact Hex]. now apply (processOffer_inherited li info).
    + destruct (processOffer_throw _ _ _ E) as [_ Hp']. congruence.
Qed.

Section WithPlatform.
Context `{Platform}.

Lemma extract_stream_offers (doc : Node) :
  extract doc
  = match forEach processOffer (stream_offers doc) [] with
    | Return info =>
        Return (mkResult
                  (option_map href (document_querySelector doc justWatchSelector))
                  info)
    | Throw e => Throw e
    end.
Proof.
  unfold extract, stream_offers. now rewrite sections_are_offers.
Qed.

(** X4.  Only the list items of the sections headed "stream" (trimmed,
    in any case) count.  The result of the extraction is the JustWatch
    link together with what the offers of these sections give, processed
    as one sequence in document order; sections with another heading or
    without heading do not influence it. *)
Theorem extract_reads_stream_offers (doc : Node) :
  extract doc
  = match forEach processOffer (stream_offers doc) [] with
    | Return info =>
        Return (mkResult
                  (option_map href (document_querySelector doc justWatchSelector))
                  info)
    | Throw e => Throw e
    end.
Proof. apply extract_stream_offers. Qed.

(** X5.  Tiers are merged, not overwritten.  When the extraction returns,
    the tiers of a provider (whose name is not an inherited property name)
    are those marked on any of its stream offers: they are accumulated
    over all the offers of that name in page order, each tier being kept
    at its first insertion. *)
Theorem tiers_are_merged (doc : Node) (r : ScrapeResult) (name : string) :
  extract doc = Return r ->
  inherited name = false ->
  tiers (providersInfo r) name
  = add_tiers (flat_map li_markers (filter (is_named name) (stream_offers doc)))
              [] /\
  forall q,
    In q (tiers (providersInfo r) name) <->
    exists li,
      In li (stream_offers doc) /\ providerNameOf li = Some name /\
      classList_contains (node_of li) (marker q) = true.
Proof.
  rewrite extract_stream_offers.
  destruct (forEach processOffer (stream_offers doc) []) as [info|] eqn:E;
    [|discriminate].
  intros [= <-] Hname. simpl.
  pose proof (offers_tiers _ _ _ name E Hname) as Ht.
  change (tiers [] name) with (@nil Quality) in Ht.
  split; [exact Ht|].
  intros q. rewrite Ht, add_tiers_In, in_flat_map. split.
  - intros [[]|(li & Hin & Hq)]. apply filter_In in Hin.
    destruct Hin as [Hin Hn]. exists li. split; [exact Hin|].
    split; [|now apply li_markers_In].
    unfold is_named in Hn. destruct (providerNameOf li) as [n|];
      [|discriminate]. apply String.eqb_eq in Hn. now subst.
  - intros (li & Hin & Hn & Hq). right. exists li.
    split; [|now apply li_markers_In].
    apply filter_In. split; [exact Hin|].
    unfold is_named. rewrite Hn. apply String.eqb_refl.
Qed.

(** X6.  The only exception of the extraction.  Querying the document
    throws exactly when some stream offer has a provider name that every
    object inherits from [Object.prototype] (such as "constructor") and
    carries a quality marker; the exception is a [TypeError]; and then the
    scraper answers with the empty result, although the page was fetched
    and parsed, so that the link and the tiers of the other providers are
    lost too. *)
Theorem extraction_throws_iff_poisoned (doc : Node) :
  (forall e, extract doc = Throw e -> e = TypeError) /\
  ((exists e, extract doc = Throw e)
   <-> existsb poisoned (stream_offers doc) = true) /\
  (existsb poisoned (stream_offers doc) = true ->
   forall url log resp,
     network (mkRequest url []) = Fulfilled resp ->
     ok resp = true ->
     parseHTML (text resp) = doc ->
     scrapeTmdbWatchPage url log
     = (Return emptyResult, log ++ [mkRequest url []])).
Proof.
  assert (Hthrow : existsb poisoned (stream_offers doc) = true ->
                   extract doc = Throw TypeError).
  { intros Hp. rewrite extract_stream_offers, offers_poisoned; auto. }
  split; [|split].
  - intros e. rewrite extract_stream_offers.
    destruct (forEach processOffer (stream_offers doc) []) as [i|e1] eqn:E;
      [discriminate|].
    intros [= <-]. now apply (offers_throw _ _ _ E).
  - split.
    + intros [e He]. rewrite extract_stream_offers in He.
      destruct (forEach processOffer (stream_offers doc) []) as [i|e1] eqn:E;
        [discriminate|]. now apply (offers_throw _ _ _ E).
    + intros Hp. exists TypeError. now apply Hthrow.
  - intros Hp url log resp Hnet Hok Hdoc.
    unfold scrapeTmdbWatchPage, try_catch, scrape_body, bind, fetch, lift.
    rewrite Hnet, Hok, Hdoc, (Hthrow Hp). reflexivity.
Qed.

Lemma str_get_None_iff {V : Type} (o : list (string * V)) (k : string) :
  str_get o k = None <-> ~ In k (map fst o).
Proof.
  induction o as [|[k0 v0] o IH]; simpl; [tauto|].
  destruct (String.eqb_spec k0 k) as [->|Hne].
  - split; [discriminate|]. intros Hn. elim Hn. now left.
  - rewrite IH. tauto.
Qed.

Lemma str_update_keys {V : Type} (o : list (string * V)) (k : string)
  (f : V -> V) :
  map fst (str_update o k f) = map fst o.
Proof.
  induction o as [|[k0 v0] o IH]; simpl; [reflexivity|].
  destruct (k0 =? k)%string; simpl; [reflexivity|now rewrite IH].
Qed.

Lemma add_if_marked_keys li n (qs : list Quality) info info' :
  forEach (add_if_marked li n) qs info = Return info' ->
  map fst info' = map fst info.
Proof.
  revert info. induction qs as [|q qs IH]; intros info; simpl.
  - now intros [= <-].
  - unfold add_if_marked at 1.
    destruct (classList_contains (node_of li) (marker q)).
    + unfold stream_add. destruct (str_get info n); [|discriminate].
      intros Hret. rewrite (IH _ Hret). apply str_update_keys.
    + apply IH.
Qed.

Lemma processOffer_keys li info info1 :
  processOffer li info = Return info1 ->
  map fst info1
  = map fst info
    ++ match providerNameOf li with
       | Some n => if truthy_at info n then [] else [n]
       | None => []
       end.
Proof.
  unfold processOffer. destruct (providerNameOf li) as [n|].
  - intros Hret. rewrite (add_if_marked_keys _ _ _ _ _ Hret).
    destruct (truthy_at info n); [now rewrite app_nil_r|].
    now rewrite map_app.
  - intros [= <-]. now rewrite app_nil_r.
Qed.

Lemma offers_keys (lis : list Path) info info' :
  forEach processOffer lis info = Return info' ->
  NoDup (map fst info) ->
  NoDup (map fst info') /\
  forall k,
    In k (map fst info') <->
    In k (map fst info) \/
    (inherited k = false /\
     exists li, In li lis /\ providerNameOf li = Some k).
Proof.
  revert info. induction lis as [|li lis IH]; intros info; simpl.
  - intros [= <-] Hnd. split; [exact Hnd|]. intros k. split; [auto|].
    intros [Hk|(_ & li & [] & _)]. exact Hk.
  - destruct (processOffer li info) as [info1|] eqn:E; [|discriminate].
    intros Hret Hnd. pose proof (processOffer_keys _ _ _ E) as Hk1.
    assert (Hnd1 : NoDup (map fst info1)).
    { rewrite Hk1. destruct (providerNameOf li) as [n|];
        [|now rewrite app_nil_r].
      unfold truthy_at. destruct (str_get info n) eqn:Hget;
        [now rewrite app_nil_r|].
      destruct (existsb _ _); [now rewrite app_nil_r|].
      apply (Permutation_NoDup (Permutation_cons_append _ _)).
      constructor; [|exact Hnd]. now apply str_get_None_iff. }
    destruct (IH info1 Hret Hnd1) as (Hnd' & Hkeys).
    split; [exact Hnd'|]. intros k. rewrite Hkeys, Hk1, in_app_iff.
    split.
    + intros [[Hk|Hk]|(Hi & li' & Hin & Hn)]; auto.
      * right. destruct (providerNameOf li) as [n|] eqn:En; [|destruct Hk].
        unfold truthy_at in Hk. destruct (str_get info n); [destruct Hk|].
        destruct (existsb (String.eqb n) Object_prototype_names) eqn:Ei;
          [destruct Hk|].
        destruct Hk as [<-|[]]. split; [exact Ei|]. exists li. auto.
      * right. split; [exact Hi|]. exists li'. auto.
    + intros [Hk|(Hi & li' & [<-|Hin] & Hn)]; auto.
      * rewrite Hn. unfold truthy_at.
        destruct (str_get info k) eqn:Hget.
        -- left. left.
           destruct (in_dec string_dec k (map fst info)) as [Hin|Hnin];
             [exact Hin|].
           apply str_get_None_iff in Hnin. congruence.
        -- unfold inherited in Hi. rewrite Hi. left. right. now left.
      * right. split; [exact Hi|]. exists li'. auto.
Qed.

(** X20.  The providers listed are those offered.  When the extraction
    returns, the keys of [providersInfo] are distinct, and they are
    exactly the provider names of the stream offers that are not inherited
    property names: a provider that is offered without any quality marker
    is listed too (with no tier). *)
Theorem providers_listed_are_those_offered (doc : Node) (r : ScrapeResult) :
  extract doc = Return r ->
  NoDup (Object_keys (providersInfo r)) /\
  forall name,
    In name (Object_keys (providersInfo r)) <->
    inherited name = false /\
    exists li, In li (stream_offers doc) /\ providerNameOf li = Some name.
Proof.
  rewrite extract_stream_offers.
  destruct (forEach processOffer (stream_offers doc) []) as [info|] eqn:E;
    [|discriminate].
  intros [= <-]. cbn [providersInfo]. unfold Object_keys.
  destruct (offers_keys _ _ _ E (NoDup_nil _)) as (Hnd & Hkeys).
  split; [exact Hnd|]. intros name. rewrite Hkeys. simpl. tauto.
Qed.

End WithPlatform.

Lemma providers_listed_are_those_offered_witness :
  NoDup (Object_keys [("Hulu", [HD])]) /\
  ~ In "toString"%string (Object_keys [("Hulu", [HD])]).
Proof.
  destruct (@providers_listed_are_those_offered
              (sample_platform harmless_inherited_page ok_reply)
              harmless_inherited_page
              (mkResult (Some "https://www.justwatch.com/us/movie/foo")
                        [("Hulu", [HD])]) eq_refl) as (Hnd & Hkeys).
  split; [exact Hnd|].
  intros Hin. apply Hkeys in Hin. destruct Hin as [Hi _]. discriminate.
Defined.

Lemma extraction_throws_iff_poisoned_witness :
  @scrapeTmdbWatchPage inherited_name_platform sample_url []
  = (Return emptyResult, [mkRequest sample_url []]) /\
  existsb poisoned (stream_offers harmless_inherited_page) = false.
Proof.
  split.
  - apply (proj2 (proj2 (@extraction_throws_iff_poisoned
                           inherited_name_platform inherited_name_page))
             eq_refl sample_url [] (mkResponse true 200 "<html>"));
      reflexivity.
  - reflexivity.
Defined.

Lemma tiers_are_merged_witness :
  tiers [("Hulu", [SD; Q4K]); ("Netflix", [HD])] "Hulu" = [SD; Q4K].
Proof.
  pose proof (@tiers_are_merged (sample_platform two_offers_page ok_reply)
                two_offers_page
                (mkResult (Some "https://www.justwatch.com/us/movie/foo")
                          [("Hulu", [SD; Q4K]); ("Netflix", [HD])])
                "Hulu" eq_refl eq_refl) as [Ht _].
  exact Ht.
Defined.

End OffersProps.

(** ** What the relay answers and what it sends *)

Module RelayMore.
Import Js Effects Extractor Relay Forms Forwarding JsFacts ExtractorProps.

Lemma truthy_Some (s : string) : truthy (Some s) = true <-> s <> ""%string.
Proof.
  simpl. destruct (String.eqb_spec s ""); simpl; split; intros;
    congruence.
Qed.

Lemma truthy_cases (v : option string) :
  truthy v = false \/ exists s, v = Some s /\ s <> ""%string.
Proof.
  destruct v as [s|]; [|now left].
  destruct (String.eqb_spec s "") as [->|Hne]; [now left|].
  right. exists s. auto.
Qed.

Section AnyScraper.
Context `{Platform}.
Variable scrape : string -> M ScrapeResult.
Variable target : string -> string.
Hypothesis scrape_returns :
  forall u log,
    exists r, scrape u log = (Return r, log ++ [mkRequest (target u) []]).

Lemma forward_caught key endpoint query log :
  try_catch (forward key endpoint query)
            (fun error => ret (mkRes 500 (BodyError error))) log
  = (Return (forwarded key endpoint query),
     log ++ [api_request key endpoint query]).
Proof.
  unfold try_catch, forward, forwarded, bind, fetch.
  destruct (network (api_request key endpoint query)) as [|resp];
    [reflexivity|].
  destruct (negb (ok resp)); [reflexivity|].
  destruct (JSON_parse (text resp)); reflexivity.
Qed.

(** The four ways through the handler. *)
Lemma handler_cases (TMDB_API_KEY : option string)
  (query : list (string * string)) (log : list Request) :
  (truthy TMDB_API_KEY = false /\
   handler_with scrape TMDB_API_KEY query log
   = (Return (mkRes 500
        (BodyText "Server configuration error: TMDB_API_KEY is not set.")),
      log)) \/
  (exists key endpoint,
     TMDB_API_KEY = Some key /\ key <> ""%string /\
     str_get query "endpoint" = Some endpoint /\ endpoint <> ""%string /\
     handler_with scrape TMDB_API_KEY query log
     = (Return (forwarded key endpoint query),
        log ++ [api_request key endpoint query])) \/
  (exists url r,
     truthy TMDB_API_KEY = true /\
     truthy (str_get query "endpoint") = false /\
     str_get query "url" = Some url /\ url <> ""%string /\
     handler_with scrape TMDB_API_KEY query log
     = (Return (mkRes 200 (BodyScraped r)),
        log ++ [mkRequest (target url) []])) \/
  (truthy TMDB_API_KEY = true /\
   truthy (str_get query "endpoint") = false /\
   truthy (str_get query "url") = false /\
   handler_with scrape TMDB_API_KEY query log
   = (Return (mkRes 400
        (BodyText "Bad Request: Please provide either an 'endpoint' or a 'url' query parameter.")),
      log)).
Proof.
  unfold handler_with.
  destruct (truthy_cases TMDB_API_KEY) as [Hk|(key & -> & Hkey)].
  - left. rewrite Hk. auto.
  - right. rewrite (proj2 (truthy_Some key) Hkey). cbn [negb].
    destruct (truthy_cases (str_get query "endpoint"))
      as [He|(endpoint & He & Hne)].
    + right. rewrite He.
      destruct (truthy_cases (str_get query "url")) as [Hu|(url & Hu & Hnu)].
      * right. rewrite Hu. auto.
      * left. rewrite Hu, (proj2 (truthy_Some url) Hnu).
        destruct (scrape_returns url log) as (r & Hr).
        exists url, r. repeat split; auto.
        unfold try_catch, bind. rewrite Hr. reflexivity.
    + left. exists key, endpoint. rewrite He, (proj2 (truthy_Some _) Hne).
      repeat split; auto. apply forward_caught.
Qed.

Lemma forwarded_status key endpoint query :
  res_status (forwarded key endpoint query) = 200%Z \/
  res_status (forwarded key endpoint query) = 500%Z.
Proof.
  unfold forwarded. destruct (network _) as [|resp]; [now right|].
  destruct (negb (ok resp)); [now right|].
  destruct (JSON_parse (text resp)); [now left|now right].
Qed.

Lemma answers (TMDB_API_KEY : option string)
  (query : list (string * string)) (log : list Request) :
  exists resp new,
    handler_with scrape TMDB_API_KEY query log = (Return resp, log ++ new) /\
    List.length new <= 1 /\
    In (res_status resp) [200%Z; 400%Z; 500%Z] /\
    forall req, In req new ->
      (req_headers req = [] /\ exists u, req_url req = target u) \/
      (prefix "https://api.themoviedb.org/3/" (req_url req) = true /\
       exists key,
         TMDB_API_KEY = Some key /\
         req_headers req = [("Authorization", ("Bearer " ++ key)%string);
                            ("Accept", "application/json")]).
Proof.
  destruct (handler_cases TMDB_API_KEY query log)
    as [[_ E]|[(key & endpoint & Hk & _ & _ & _ & E)
              |[(url & r & _ & _ & _ & _ & E)|(_ & _ & _ & E)]]];
    rewrite E.
  - eexists _, []. rewrite app_nil_r. simpl. intuition.
  - eexists _, [_]. split; [reflexivity|]. split; [simpl; lia|]. split.
    + destruct (forwarded_status key endpoint query) as [-> | ->];
        simpl; auto.
    + intros req [<-|[]]. right. split.
      * unfold api_request, req_url. apply prefix_app.
      * exists key. auto.
  - eexists _, [_]. split; [reflexivity|]. split; [simpl; lia|]. split.
    + simpl. auto.
    + intros req [<-|[]]. left. simpl. eauto.
  - eexists _, []. rewrite app_nil_r. simpl. intuition.
Qed.

End AnyScraper.

Section WithPlatform.
Context `{Platform}.

Lemma direct_returns (u : string) (log : list Request) :
  exists r, scrapeTmdbWatchPage u log = (Return r, log ++ [mkRequest u []]).
Proof.
  unfold scrapeTmdbWatchPage, try_catch, scrape_body, bind, fetch.
  destruct (network (mkRequest u [])) as [|resp].
  - now exists emptyResult.
  - destruct (negb (ok resp)); simpl.
    + now exists emptyResult.
    + unfold lift. destruct (extract (parseHTML (text resp))) as [r|e].
      * now exists r.
      * now exists emptyResult.
Qed.

Lemma proxied_returns (u : string) (log : list Request) :
  exists r,
    scrapeTmdbWatchPage_proxied u log
    = (Return r, log ++ [mkRequest (req_url (proxy_request u)) []]).
Proof.
  exact (direct_returns (req_url (proxy_request u)) log).
Qed.

(** X7.  The relay always answers.  In both variants the handler never
    throws: whatever the key, the query and the network, it sets a
    response whose status is 200, 400 or 500, after at most one upstream
    request. *)
Theorem relay_always_answers (TMDB_API_KEY : option string)
  (query : list (string * string)) (log : list Request) :
  (exists resp new,
     handler TMDB_API_KEY query log = (Return resp, log ++ new) /\
     List.length new <= 1 /\
     In (res_status resp) [200%Z; 400%Z; 500%Z]) /\
  (exists resp new,
     handler_proxied TMDB_API_KEY query log = (Return resp, log ++ new) /\
     List.length new <= 1 /\
     In (res_status resp) [200%Z; 400%Z; 500%Z]).
Proof.
  split.
  - destruct (answers scrapeTmdbWatchPage (fun u => u) direct_returns
                TMDB_API_KEY query log) as (resp & new & E & Hl & Hs & _).
    exists resp, new. auto.
  - destruct (answers scrapeTmdbWatchPage_proxied
                (fun u => req_url (proxy_request u)) proxied_returns
                TMDB_API_KEY query log) as (resp & new & E & Hl & Hs & _).
    exists resp, new. auto.
Qed.

(** X8.  The key goes to TMDB only.  Every request that the handler
    issues either carries no header at all (the request of the scraper,
    to the URL to scrape or to the proxy), or goes to a URL that starts
    with the address of the TMDB API and carries the key as a bearer
    token. *)
Theorem key_is_sent_to_tmdb_only (TMDB_API_KEY : option string)
  (query : list (string * string)) (log log' : list Request)
  (o : Outcome HttpResponse) :
  handler TMDB_API_KEY query log = (o, log') \/
  handler_proxied TMDB_API_KEY query log = (o, log') ->
  exists new,
    log' = log ++ new /\
    forall req, In req new ->
      req_headers req = [] \/
      (prefix "https://api.themoviedb.org/3/" (req_url req) = true /\
       exists key,
         TMDB_API_KEY = Some key /\
         req_headers req = [("Authorization", ("Bearer " ++ key)%string);
                            ("Accept", "application/json")]).
Proof.
  intros [E|E].
  - destruct (answers scrapeTmdbWatchPage (fun u => u) direct_returns
                TMDB_API_KEY query log) as (resp & new & E' & _ & _ & Hreq).
    unfold handler in E. rewrite E' in E. injection E as _ <-.
    exists new. split; [reflexivity|].
    intros req Hin. destruct (Hreq req Hin) as [[Hh _]|Hapi]; auto.
  - destruct (answers scrapeTmdbWatchPage_proxied
                (fun u => req_url (proxy_request u)) proxied_returns
                TMDB_API_KEY query log) as (resp & new & E' & _ & _ & Hreq).
    unfold handler_proxied in E. rewrite E' in E. injection E as _ <-.
    exists new. split; [reflexivity|].
    intros req Hin. destruct (Hreq req Hin) as [[Hh _]|Hapi]; auto.
Qed.

(** X9.  A scrape request is always answered with status 200.  With the
    key set, no (or an empty) [endpoint] parameter and a non-empty [url]
    parameter, the handler answers 200 with the scraped data after one
    request (to the URL itself, or to the proxy in the proxied variant);
    when that request is not retrievable the data are the empty result,
    still with status 200. *)
Theorem scrape_requests_get_200 (key url : string)
  (query : list (string * string)) (log : list Request) :
  key <> ""%string ->
  truthy (str_get query "endpoint") = false ->
  str_get query "url" = Some url -> url <> ""%string ->
  (handler (Some key) query log
   = (Return (mkRes 200 (BodyScraped (match fst (scrapeTmdbWatchPage url log)
                                      with
                                      | Return r => r
                                      | Throw _ => emptyResult
                                      end))),
      log ++ [mkRequest url []])) /\
  (handler_proxied (Some key) query log
   = (Return (mkRes 200
        (BodyScraped (match fst (scrapeTmdbWatchPage_proxied url log) with
                      | Return r => r
                      | Throw _ => emptyResult
                      end))),
      log ++ [proxy_request url])) /\
  (not_retrievable url ->
   handler (Some key) query log
   = (Return (mkRes 200 (BodyScraped emptyResult)),
      log ++ [mkRequest url []])).
Proof.
  intros Hkey He Hu Hne.
  assert (Hgen : forall scrape target,
            (forall u l, exists r,
               scrape u l = (Return r, l ++ [mkRequest (target u) []])) ->
            handler_with scrape (Some key) query log
            = (Return (mkRes 200
                 (BodyScraped (match fst (scrape url log) with
                               | Return r => r
                               | Throw _ => emptyResult
                               end))),
               log ++ [mkRequest (target url) []])).
  { intros scrape target Hs. unfold handler_with.
    rewrite (proj2 (truthy_Some key) Hkey), He, Hu,
      (proj2 (truthy_Some url) Hne).
    cbn [negb]. unfold try_catch, bind.
    destruct (Hs url log) as (r & Hr). rewrite Hr. reflexivity. }
  split; [|split].
  - apply (Hgen scrapeTmdbWatchPage (fun u => u)). apply direct_returns.
  - apply (Hgen scrapeTmdbWatchPage_proxied
             (fun u => req_url (proxy_request u))).
    apply proxied_returns.
  - intros Hnot. unfold handler.
    rewrite (Hgen scrapeTmdbWatchPage (fun u => u) direct_returns).
    unfold scrapeTmdbWatchPage, try_catch, scrape_body, bind, fetch.
    destruct Hnot as [Hn|(resp & Hn & Hok)]; rewrite Hn;
      [reflexivity|]. rewrite Hok. reflexivity.
Qed.

(** X10.  Upstream failures all become status 500.  With the key set and
    a non-empty [endpoint], the handler answers 200 with the parsed body
    exactly when the TMDB request is fulfilled with an OK status and a
    body that parses as JSON; a rejected request, a non-OK status
    (whatever it is) and a body that does not parse are each answered
    with status 500. *)
Theorem upstream_failures_become_500 (key endpoint : string)
  (query : list (string * string)) (log : list Request) :
  key <> ""%string ->
  str_get query "endpoint" = Some endpoint -> endpoint <> ""%string ->
  exists resp,
    handler (Some key) query log
    = (Return resp, log ++ [api_request key endpoint query]) /\
    handler_proxied (Some key) query log
    = (Return resp, log ++ [api_request key endpoint query]) /\
    (res_status resp = 200%Z \/ res_status resp = 500%Z) /\
    (res_status resp = 200%Z <->
     exists r data,
       network (api_request key endpoint query) = Fulfilled r /\
       ok r = true /\ JSON_parse (text r) = Some data /\
       res_body resp = BodyJson data) /\
    (forall r,
       network (api_request key endpoint query) = Fulfilled r ->
       ok r = false ->
       resp = mkRes 500 (BodyError (StatusError (status r)))).
Proof.
  intros Hkey He Hne.
  assert (Hgen : forall scrape,
            handler_with scrape (Some key) query log
            = (Return (forwarded key endpoint query),
               log ++ [api_request key endpoint query])).
  { intros scrape. unfold handler_with.
    rewrite (proj2 (truthy_Some key) Hkey), He,
      (proj2 (truthy_Some endpoint) Hne).
    cbn [negb]. apply forward_caught. }
  exists (forwarded key endpoint query).
  split; [apply Hgen|]. split; [apply Hgen|].
  split; [apply forwarded_status|]. unfold forwarded. split.
  - destruct (network (api_request key endpoint query)) as [|r].
    + simpl. split; [discriminate|]. intros (r & d & Hr & _). discriminate.
    + destruct (ok r) eqn:Hok; simpl.
      * destruct (JSON_parse (text r)) as [data|] eqn:Hj; simpl.
        -- split; [|reflexivity]. intros _. exists r, data. auto.
        -- split; [discriminate|].
           intros (r' & d & [= <-] & _ & Hd & _). congruence.
      * split; [discriminate|].
        intros (r' & d & [= <-] & Hok' & _). congruence.
  - intros r Hr Hok. rewrite Hr, Hok. reflexivity.
Qed.

End WithPlatform.

Lemma scrape_requests_get_200_witness :
  @handler (sample_platform (Dom.Text "") blocked_reply) (Some "secret")
     [("url", sample_url)] []
  = (Return (@mkRes (sample_platform (Dom.Text "") blocked_reply) 200
               (@BodyScraped (sample_platform (Dom.Text "") blocked_reply)
                  emptyResult)),
     [mkRequest sample_url []]).
Proof.
  apply (proj2 (proj2 (@scrape_requests_get_200
                         (sample_platform (Dom.Text "") blocked_reply)
                         "secret" sample_url [("url", sample_url)] []
                         ltac:(discriminate) eq_refl eq_refl
                         ltac:(discriminate)))).
  right. exists (mkResponse false 403 "Forbidden"). split; reflexivity.
Defined.

Lemma upstream_failures_become_500_witness :
  exists resp,
    @handler (sample_platform (Dom.Text "") blocked_reply) (Some "secret")
       [("endpoint", "search/multi"); ("query", "foo")] []
    = (Return resp,
       [@api_request (sample_platform (Dom.Text "") blocked_reply) "secret"
          "search/multi" [("endpoint", "search/multi"); ("query", "foo")]]) /\
    res_status resp = 500%Z.
Proof.
  destruct (@upstream_failures_become_500
              (sample_platform (Dom.Text "") blocked_reply)
              "secret" "search/multi"
              [("endpoint", "search/multi"); ("query", "foo")] []
              ltac:(discriminate) eq_refl ltac:(discriminate))
    as (resp & E & _ & _ & _ & Hbad).
  exists resp. split; [exact E|].
  rewrite (Hbad (mkResponse false 403 "Forbidden") eq_refl eq_refl).
  reflexivity.
Defined.

Lemma key_is_sent_to_tmdb_only_witness :
  exists new,
    [@api_request relay_platform "secret" "search/multi"
       [("endpoint", "search/multi"); ("query", "foo")]]
    = [] ++ new /\
    forall req, In req new ->
      req_headers req = [] \/
      (prefix "https://api.themoviedb.org/3/" (req_url req) = true /\
       exists key,
         Some "secret"%string = Some key /\
         req_headers req = [("Authorization", ("Bearer " ++ key)%string);
                            ("Accept", "application/json")]).
Proof.
  apply (@key_is_sent_to_tmdb_only relay_platform (Some "secret")
           [("endpoint", "search/multi"); ("query", "foo")] []
           _ (Return (@mkRes relay_platform 200
                        (@BodyJson relay_platform "<html>"%string)))).
  left. reflexivity.
Defined.

(** *** The query string that is forwarded *)

Lemma remove_first_eq (pat s : string) :
  remove_first pat s
  = if prefix pat s then drop (String.length pat) s
    else match s with
         | EmptyString => EmptyString
         | String c s' => String c (remove_first pat s')
         end.
Proof. destruct s; reflexivity. Qed.

Lemma has_char_app (c : ascii) (a b : string) :
  has_char c (a ++ b) = has_char c a || has_char c b.
Proof.
  induction a as [|x a IH]; simpl; [reflexivity|].
  now rewrite IH, orb_assoc.
Qed.

Lemma prefix_has_char (c : ascii) (p s : string) :
  prefix p s = true -> has_char c p = true -> has_char c s = true.
Proof.
  revert s. induction p as [|x p IH]; intros s; simpl; [discriminate|].
  destruct s as [|y s]; simpl; [discriminate|].
  destruct (ascii_dec x y) as [->|]; [|discriminate].
  intros Hp Hc. apply orb_true_iff in Hc. apply orb_true_iff.
  destruct Hc as [Hc|Hc]; [now left|right; now apply IH].
Qed.

Lemma remove_first_absent (c : ascii) (pat s : string) :
  has_char c pat = true -> has_char c s = false -> remove_first pat s = s.
Proof.
  intros Hpat. induction s as [|x s IH]; intros Hs; rewrite remove_first_eq.
  - destruct (prefix pat "") eqn:E; [|reflexivity].
    rewrite (prefix_has_char c _ _ E Hpat) in Hs. discriminate.
  - destruct (prefix pat (String x s)) eqn:E.
    + rewrite (prefix_has_char c _ _ E Hpat) in Hs. discriminate.
    + simpl in Hs. apply orb_false_iff in Hs. now rewrite IH.
Qed.

Lemma hex_digit_no_slash (k : nat) :
  k < 16 -> Ascii.eqb slash (hex_digit k) = false.
Proof.
  intros Hk. do 16 (destruct k as [|k]; [reflexivity|]). lia.
Qed.

Lemma percent_no_slash (n : nat) :
  n < 256 -> has_char slash (percent n) = false.
Proof.
  intros Hn. unfold percent. cbn [has_char].
  rewrite (hex_digit_no_slash (n / 16)), (hex_digit_no_slash (n mod 16)).
  - reflexivity.
  - apply Nat.mod_upper_bound. discriminate.
  - apply Nat.Div0.div_lt_upper_bound. exact Hn.
Qed.

Lemma form_encode_no_slash (s : string) :
  has_char slash (form_encode s) = false.
Proof.
  induction s as [|c s IH]; [reflexivity|].
  cbn [form_encode]. cbv zeta.
  change String.append with append. rewrite has_char_app, IH, orb_false_r.
  pose proof (nat_ascii_bounded c) as Hc.
  destruct (is_form_safe c) eqn:Hsafe.
  - cbn [has_char]. rewrite orb_false_r.
    destruct (Ascii.eqb_spec slash c) as [<-|]; [|reflexivity].
    vm_compute in Hsafe. discriminate.
  - destruct (nat_of_ascii c =? 32); [reflexivity|].
    destruct (nat_of_ascii c <? 128) eqn:E.
    + now apply percent_no_slash.
    + rewrite has_char_app, !percent_no_slash; [reflexivity| |].
      * assert (nat_of_ascii c mod 64 < 64)
          by (apply Nat.mod_upper_bound; discriminate). lia.
      * assert (nat_of_ascii c / 64 < 4)
          by (apply Nat.Div0.div_lt_upper_bound; lia). lia.
Qed.

Lemma concat_no_slash (l : list string) :
  Forall (fun x => has_char slash x = false) l ->
  has_char slash (String.concat "&" l) = false.
Proof.
  induction 1 as [|x l Hx Hl IH]; [reflexivity|].
  destruct l as [|y l]; [exact Hx|].
  change (String.concat "&" (x :: y :: l))
    with (x ++ "&" ++ String.concat "&" (y :: l))%string.
  rewrite !has_char_app, Hx, IH. reflexivity.
Qed.

Lemma serialize_no_slash (q : list (string * string)) :
  has_char slash (URLSearchParams_serialize q) = false.
Proof.
  unfold URLSearchParams_serialize. apply concat_no_slash.
  apply Forall_forall. intros x Hx. apply in_map_iff in Hx.
  destruct Hx as (kv & <- & _). change String.append with append.
  rewrite !has_char_app, !form_encode_no_slash. reflexivity.
Qed.

(** X11.  The [endpoint] parameter is forwarded too.  With the standard
    serialization of [URLSearchParams], the removal of
    "endpoint=<endpoint>&" from the query string (line 24) finds nothing
    to remove as soon as the endpoint contains a slash, since the
    serializer writes a slash as an escape: the query string sent to TMDB
    is the whole serialized query of the incoming request, its [endpoint]
    parameter (and a [url] parameter, if any) included. *)
Theorem endpoint_parameter_is_forwarded `{Platform} (key endpoint : string)
  (query : list (string * string)) :
  (forall q, URLSearchParams_toString q = URLSearchParams_serialize q) ->
  has_char slash endpoint = true ->
  req_url (api_request key endpoint query)
  = ("https://api.themoviedb.org/3/" ++ endpoint ++ "?"
     ++ URLSearchParams_serialize query)%string /\
  forall p rest,
    URLSearchParams_serialize (("endpoint", endpoint) :: p :: rest)
    = ("endpoint=" ++ form_encode endpoint ++ "&"
       ++ URLSearchParams_serialize (p :: rest))%string.
Proof.
  intros Hser Hslash. split.
  - unfold api_request. cbn [req_url]. rewrite Hser.
    rewrite (remove_first_absent slash); [reflexivity| |].
    + rewrite !has_char_app, Hslash. now rewrite orb_true_r.
    + apply serialize_no_slash.
  - intros p rest. reflexivity.
Qed.

Lemma endpoint_parameter_is_forwarded_witness :
  req_url (@api_request standard_platform "secret" "search/multi"
             [("endpoint", "search/multi"); ("query", "the matrix");
              ("page", "1")])
  = "https://api.themoviedb.org/3/search/multi?endpoint=search%2Fmulti&query=the+matrix&page=1"%string.
Proof.
  rewrite (proj1 (@endpoint_parameter_is_forwarded standard_platform
                    "secret" "search/multi"
                    [("endpoint", "search/multi"); ("query", "the matrix");
                     ("page", "1")]
                    (fun q => eq_refl) eq_refl)).
  reflexivity.
Defined.

End RelayMore.

(** ** The page of one title: invariants and rendering *)

Module PagesProps.
Import Js Effects Extractor Client Pages JsFacts AggregatorProps ClientProps.

Section Title.
Variables mediaType tmdbId : string.

Lemma show_update (d : Dropdown) (u : option string) (info : ProvidersInfo) :
  show (updateDropdownContent d u info) = show d.
Proof. unfold updateDropdownContent. now destruct (truthy u). Qed.

Lemma step_one_open (p : Page) (e : Event) :
  one_open p -> one_open (step mediaType tmdbId p e).
Proof.
  intros Hone. destruct e as [t|i r]; simpl.
  - unfold click. destruct (show (dropdowns p t)) eqn:Hshow.
    + intros t1 t2. simpl. discriminate.
    + assert (Hopen : forall t',
                show (set_dropdown (fun t' => set_show false (dropdowns p t'))
                        t (set_show true (set_show false (dropdowns p t))) t')
                = true -> t' = t).
      { intros t'. unfold set_dropdown.
        destruct (Tag_eqb t t') eqn:E.
        - intros _. symmetry. now apply Tag_eqb_eq.
        - simpl. discriminate. }
      destruct (jw_status _); intros t1 t2 H1 H2; simpl in H1, H2;
        rewrite (Hopen t1 H1), (Hopen t2 H2); reflexivity.
  - unfold settle. destruct (nth_error (pending p) i) as [t|]; [|exact Hone].
    intros t1 t2. simpl. unfold set_dropdown.
    intros H1 H2. apply Hone.
    + destruct (Tag_eqb t t1) eqn:E; [|exact H1].
      apply Tag_eqb_eq in E. subst t1. now rewrite show_update in H1.
    + destruct (Tag_eqb t t2) eqn:E; [|exact H2].
      apply Tag_eqb_eq in E. subst t2. now rewrite show_update in H2.
Qed.

(** X12.  At most one dropdown is open.  Whatever is clicked and whatever
    settles, starting from the freshly rendered page, two dropdowns are
    never shown at the same time: opening one closes every other. *)
Theorem at_most_one_dropdown_open (es : list Event) (t1 t2 : Tag) :
  show (dropdowns (run mediaType tmdbId es initial) t1) = true ->
  show (dropdowns (run mediaType tmdbId es initial) t2) = true ->
  t1 = t2.
Proof.
  assert (H : one_open (run mediaType tmdbId es initial)).
  { unfold run. apply fold_left_inv.
    - intros p e. apply step_one_open.
    - intros a b. simpl. discriminate. }
  apply H.
Qed.

Lemma status_update (d : Dropdown) (u : option string) (info : ProvidersInfo) :
  jw_status (updateDropdownContent d u info) = loaded.
Proof. unfold updateDropdownContent. now destruct (truthy u). Qed.

Lemma remove_nth_length {A : Type} (i : nat) (l : list A) :
  List.length (remove_nth i l) <= List.length l.
Proof.
  revert i. induction l as [|x l IH]; intros [|i]; simpl; auto.
  specialize (IH i). lia.
Qed.

Lemma step_accounted (p : Page) (e : Event) :
  accounted mediaType tmdbId p ->
  accounted mediaType tmdbId (step mediaType tmdbId p e).
Proof.
  intros (Hurl & Hpend & Hload & Hlen). destruct e as [t|i r]; simpl.
  - unfold click. destruct (show (dropdowns p t)) eqn:Hshow.
    + repeat split; simpl; auto.
    + assert (Hst : forall t',
                jw_status
                  (set_dropdown (fun t' => set_show false (dropdowns p t'))
                     t (set_show true (set_show false (dropdowns p t))) t')
                = jw_status (dropdowns p t')).
      { intros t'. unfold set_dropdown. destruct (Tag_eqb t t') eqn:E;
          [|reflexivity]. apply Tag_eqb_eq in E. now subst. }
      rewrite (Hst t).
      destruct (jw_status (dropdowns p t)) eqn:E; unfold accounted; simpl.
      * repeat split.
        -- intros t' u Hin. apply in_app_or in Hin.
           destruct Hin as [Hin|[[= <- <-]|[]]]; [now apply Hurl|reflexivity].
        -- intros t' Hin. rewrite map_app, in_app_iff. simpl.
           apply in_app_or in Hin. destruct Hin as [Hin|[<-|[]]]; auto.
        -- intros t' Hl. rewrite Hst in Hl. rewrite map_app, in_app_iff.
           left. now apply Hload.
        -- rewrite !length_app. simpl. lia.
      * repeat split; auto.
        intros t' Hl. rewrite Hst in Hl. now apply Hload.
  - unfold settle. destruct (nth_error (pending p) i) as [t|] eqn:E;
      [|repeat split; assumption].
    apply nth_error_In in E. unfold accounted. simpl. repeat split; auto.
    + intros t' Hin. apply Hpend. now apply (remove_nth_In i).
    + intros t'. unfold set_dropdown. destruct (Tag_eqb t t') eqn:E'.
      * apply Tag_eqb_eq in E'. subst t'. intros _. now apply Hpend.
      * apply Hload.
    + pose proof (remove_nth_length i (pending p)). lia.
Qed.

(** X13.  No data without a request.  On every page reached from the
    freshly rendered one, each request issued is the one for the TMDB
    watch page of the country of its tag, each enrichment in flight and
    each dropdown that shows loaded data belong to a tag for which a
    request was issued, and there are at most as many enrichments in
    flight as requests. *)
Theorem enrichments_are_accounted_for (es : list Event) :
  accounted mediaType tmdbId (run mediaType tmdbId es initial).
Proof.
  unfold run. apply fold_left_inv.
  - intros p e. apply step_accounted.
  - repeat split; simpl; try tauto; try lia. discriminate.
Qed.

Lemma disabled_update (d : Dropdown) (u : option string)
  (info : ProvidersInfo) :
  jw_disabled d = true -> jw_disabled (updateDropdownContent d u info) = true.
Proof. unfold updateDropdownContent. now destruct (truthy u). Qed.

(** X14.  A disabled JustWatch link stays disabled.  Once an enrichment
    without link has set [pointer-events: none] on the link of a tag,
    nothing that is clicked or settles afterwards enables it again, not
    even a later answer that brings a link for the same tag. *)
Theorem disabled_link_stays_disabled (t : Tag) (p : Page) (es : list Event) :
  jw_disabled (dropdowns p t) = true ->
  jw_disabled (dropdowns (run mediaType tmdbId es p) t) = true.
Proof.
  unfold run. apply (fold_left_inv (fun p => jw_disabled (dropdowns p t) = true)).
  intros q e Hq. destruct e as [t0|i r]; simpl.
  - unfold click. destruct (show (dropdowns q t0)); simpl; [exact Hq|].
    assert (H : jw_disabled
                  (set_dropdown (fun t' => set_show false (dropdowns q t')) t0
                     (set_show true (set_show false (dropdowns q t0))) t)
                = true).
    { unfold set_dropdown. destruct (Tag_eqb t0 t) eqn:E; [|exact Hq].
      apply Tag_eqb_eq in E. subst t0. exact Hq. }
    destruct (jw_status _); exact H.
  - unfold settle. destruct (nth_error (pending q) i) as [t0|]; [|exact Hq].
    simpl. unfold set_dropdown. destruct (Tag_eqb t0 t) eqn:E; [|exact Hq].
    apply Tag_eqb_eq in E. subst t0. now apply disabled_update.
Qed.

End Title.

Lemma at_most_one_dropdown_open_witness : us_hulu = us_hulu.
Proof.
  apply (at_most_one_dropdown_open "movie" "27205"
           [Click us_netflix; Click us_hulu]); reflexivity.
Defined.

Lemma disabled_link_stays_disabled_witness :
  let p := run "movie" "27205"
             [Click us_netflix; Click us_netflix; Click us_netflix;
              Settle 0 no_link_result; Settle 0 sample_result] initial in
  jw_disabled (dropdowns p us_netflix) = true /\
  jw_text (dropdowns p us_netflix) = "View on JustWatch"%string /\
  jw_href (dropdowns p us_netflix)
  = "https://www.justwatch.com/us/movie/foo"%string.
Proof.
  split; [|split; reflexivity].
  apply (disabled_link_stays_disabled "movie" "27205" us_netflix
           (run "movie" "27205"
              [Click us_netflix; Click us_netflix; Click us_netflix;
               Settle 0 no_link_result] initial)
           [Settle 0 sample_result]).
  reflexivity.
Defined.

(** *** The quality container *)

Lemma sorted_app {B : Type} (R : B -> B -> Prop) (l1 l2 : list B) :
  StronglySorted R l1 -> StronglySorted R l2 ->
  (forall x y, In x l1 -> In y l2 -> R x y) ->
  StronglySorted R (l1 ++ l2).
Proof.
  induction 1 as [|x l1 Hs IH Hx]; intros H2 Hcross; simpl; [exact H2|].
  constructor.
  - apply IH; [exact H2|]. intros a b Ha. apply Hcross. now right.
  - rewrite Forall_forall in *. intros y Hy. apply in_app_or in Hy.
    destruct Hy as [Hy|Hy]; [now apply Hx|]. apply Hcross; [now left|exact Hy].
Qed.

Lemma sorted_flat_map {A B : Type} (R : A -> A -> Prop) (R' : B -> B -> Prop)
  (g : A -> list B) (l : list A) :
  (forall a b x y, R a b -> In x (g a) -> In y (g b) -> R' x y) ->
  (forall a, StronglySorted R' (g a)) ->
  StronglySorted R l -> StronglySorted R' (flat_map g l).
Proof.
  intros HR Hg. induction 1 as [|a l Hs IH Ha]; simpl; [constructor|].
  apply sorted_app; [apply Hg|exact IH|].
  intros x y Hx Hy. apply in_flat_map in Hy. destruct Hy as (b & Hb & Hy).
  rewrite Forall_forall in Ha. apply (HR a b); auto.
Qed.

(** X15.  What the quality container lists.  For a scraped object
    (distinct provider names), the items are exactly the providers with a
    non-empty [stream], each with its tiers in the order of the array, and
    they come sorted by provider name (code-unit order).  "No streaming
    quality info" is shown exactly when the object has no provider at
    all: when it has providers but none has a tier, neither an item nor
    that message is shown. *)
Theorem quality_container_lists (d : Dropdown) (u : option string)
  (info : ProvidersInfo) :
  NoDup (Object_keys info) ->
  StronglySorted (fun a b => (codeUnitCompare (fst a) (fst b) <= 0)%Z)
                 (qualityItems info) /\
  (forall providerName tags,
     In (providerName, tags) (qualityItems info) <->
     exists stream,
       In (providerName, stream) info /\ stream <> [] /\
       tags = qualityTags stream) /\
  (quality (updateDropdownContent d u info) = QualityNone <-> info = []) /\
  (info <> [] ->
   (forall providerName stream, In (providerName, stream) info -> stream = []) ->
   quality (updateDropdownContent d u info) = QualityItems []).
Proof.
  intros Hnd.
  assert (Hitems : forall providerName tags,
            In (providerName, tags) (qualityItems info) <->
            exists stream,
              In (providerName, stream) info /\ stream <> [] /\
              tags = qualityTags stream).
  { intros n tags. unfold qualityItems. rewrite in_flat_map. split.
    - intros (k & Hk & Hin).
      destruct (str_get info k) as [stream|] eqn:Hget; [|destruct Hin].
      destruct stream as [|q stream]; [destruct Hin|].
      destruct Hin as [[= <- <-]|[]]. exists (q :: stream).
      split; [|split; [discriminate|reflexivity]].
      clear Hk Hnd. induction info as [|[k0 v0] info IH]; simpl in *;
        [discriminate|].
      destruct (String.eqb_spec k0 k) as [->|Hne].
      + injection Hget as ->. now left.
      + right. now apply IH.
    - intros (stream & Hin & Hne & ->). exists n. split.
      + apply (Permutation_in _ (Permutation_sym (Array_sort_perm _ _))).
        unfold Object_keys. change n with (fst (n, stream)). now apply in_map.
      + rewrite (str_get_In info n stream Hnd Hin).
        destruct stream; [contradiction|]. now left. }
  split; [|split; [exact Hitems|split]].
  - unfold qualityItems. apply sorted_flat_map
      with (R := fun a b => (codeUnitCompare a b <= 0)%Z).
    + intros a b x y Hab Hx Hy.
      destruct (str_get info a) as [sa|]; [|destruct Hx].
      destruct (0 <? List.length sa); [|destruct Hx].
      destruct Hx as [<-|[]].
      destruct (str_get info b) as [sb|]; [|destruct Hy].
      destruct (0 <? List.length sb); [|destruct Hy].
      destruct Hy as [<-|[]]. exact Hab.
    + intros a. destruct (str_get info a) as [sa|]; [|constructor].
      destruct (0 <? List.length sa); repeat constructor.
    + apply Array_sort_sorted.
      * apply codeUnitCompare_total.
      * apply codeUnitCompare_trans.
  - unfold updateDropdownContent. destruct info as [|x info]; simpl.
    + destruct (truthy u); simpl; split; auto.
    + destruct (truthy u); simpl; split; discriminate.
  - intros Hne Hall.
    assert (Hnil : qualityItems info = []).
    { destruct (qualityItems info) as [|[n tags] l]; [reflexivity|].
      destruct (proj1 (Hitems n tags) (or_introl eq_refl))
        as (stream & Hin & Hs & _).
      elim Hs. now apply (Hall n). }
    unfold updateDropdownContent. rewrite Hnil.
    destruct info as [|x info]; [contradiction|].
    simpl. destruct (truthy u); reflexivity.
Qed.

Lemma quality_container_lists_witness :
  quality (updateDropdownContent createDropdown None tierless_info)
  = QualityItems [].
Proof.
  apply (quality_container_lists createDropdown None tierless_info).
  - unfold Object_keys. simpl.
    repeat (constructor; [simpl; intuition discriminate|]). constructor.
  - discriminate.
  - intros n stream [[= _ <-]|[[= _ <-]|[]]]; reflexivity.
Defined.

End PagesProps.

(** ** Searching a title *)

Module SearchProps.
Import Js Aggregator Effects Results Search JsFacts.

Section WithBrowser.
Context `{Browser}.


(** X17.  A typed query looks up the first result.  Without a picked
    suggestion, a submit with a non-blank input issues the search request
    for the trimmed input and then, when the search has a result, exactly
    one details request, for the first result, which is looked up as a
    film only when its [media_type] is "movie" and as a series otherwise
    (a person included); when the search has no result, the search request
    is the only one and "could not find" is shown for the trimmed
    input. *)
Theorem typed_query_looks_up_first_result (ui : Ui) (searchData : Json) :
  selectedContent ui = None ->
  trim (inputValue ui) <> ""%string ->
  callApi "search/multi" (search_params (trim (inputValue ui)))
  = inr searchData ->
  (forall first rest,
     results_of_search searchData = Some (first :: rest) ->
     requests (submit ui)
     = requests ui
       ++ [api_request "search/multi" (search_params (trim (inputValue ui)));
           api_request (details_endpoint first) []] /\
     details_endpoint first
     = ((if (media_type first =? "movie")%string then "movie" else "tv")
        ++ "/" ++ string_of_N (id first) ++ "/watch/providers")%string) /\
  (results_of_search searchData = None \/
   results_of_search searchData = Some [] ->
   results (submit ui) = NotFound (trim (inputValue ui)) /\
   requests (submit ui)
   = requests ui
     ++ [api_request "search/multi" (search_params (trim (inputValue ui)))]).
Proof.
  intros Hsel Hq Hcall. apply String.eqb_neq in Hq.
  split.
  - intros first rest Hres. split; [|reflexivity].
    unfold submit. rewrite Hq, Hsel. unfold searchContent.
    rewrite Hcall, Hres. unfold fetchContentDetails. cbn [fst snd].
    destruct (callApi (details_endpoint first) []); reflexivity.
  - intros Hres. unfold submit. rewrite Hq, Hsel. unfold searchContent.
    rewrite Hcall. destruct Hres as [-> | ->]; split; reflexivity.
Qed.

(** X18.  The suggestions are titles, eight at most.  When the search
    answers with a non-empty list, the dropdown is shown with one row per
    film or series among the first eight results, in their order: never
    more than eight rows, never a row for another kind of result (so the
    shown dropdown may have no row at all); an empty list hides the
    dropdown. *)
Theorem suggestions_are_titles (query : string) (shown : AutocompleteView)
  (data : Json) (items : list Item) :
  callApi "search/multi" (search_params query) = inr data ->
  results_of_search data = Some items ->
  (items = [] -> fetchAutocomplete query shown = Hidden) /\
  (items <> [] ->
   exists rows,
     fetchAutocomplete query shown = Rows rows /\
     List.length rows <= 8 /\
     map sg_item rows = filter is_title (firstn 8 items) /\
     forall row, In row rows ->
       In (sg_item row) (firstn 8 items) /\
       (media_type (sg_item row) = "movie"%string /\
        sg_kind row = "Movie"%string \/
        media_type (sg_item row) = "tv"%string /\
        sg_kind row = "TV Show"%string)).
Proof.
  intros Hcall Hres. unfold fetchAutocomplete. rewrite Hcall, Hres. split.
  - intros ->. reflexivity.
  - intros Hne. destruct items as [|x items]; [contradiction|].
    exists (map suggestion (filter is_title (firstn 8 (x :: items)))).
    split; [reflexivity|]. split; [|split].
    + rewrite length_map.
      apply Nat.le_trans with (List.length (firstn 8 (x :: items))).
      * clear. induction (firstn 8 (x :: items)) as [|y l IH]; simpl; [lia|].
        destruct (is_title y); simpl; lia.
      * apply firstn_le_length.
    + rewrite map_map. simpl. apply map_id.
    + intros row Hrow. apply in_map_iff in Hrow.
      destruct Hrow as (item & <- & Hin). apply filter_In in Hin.
      destruct Hin as [Hin Ht]. split; [exact Hin|].
      unfold is_title in Ht. simpl.
      destruct (String.eqb_spec (media_type item) "movie") as [Hm|Hm].
      * left. auto.
      * right. simpl in Ht. apply String.eqb_eq in Ht. auto.
Qed.

End WithBrowser.


Lemma typed_query_looks_up_first_result_witness :
  requests (@submit Relay.relay_platform answering_browser
              (mkUi "  nolan " None Blank []))
  = [@api_request Relay.relay_platform "search/multi"
       (search_params "nolan");
     @api_request Relay.relay_platform "tv/525/watch/providers" []].
Proof.
  apply (proj1 (@typed_query_looks_up_first_result Relay.relay_platform
                  answering_browser (mkUi "  nolan " None Blank [])
                  "<html>"%string eq_refl ltac:(discriminate) eq_refl)
               nolan [inception] eq_refl).
Defined.

Lemma suggestions_are_titles_witness :
  exists rows,
    @fetchAutocomplete Relay.relay_platform answering_browser "nolan" Hidden
    = Rows rows /\
    List.length rows <= 8 /\
    map sg_item rows = [inception].
Proof.
  destruct (proj2 (@suggestions_are_titles Relay.relay_platform
                     answering_browser "nolan" Hidden "<html>"%string
                     [nolan; inception] eq_refl eq_refl)
                  ltac:(discriminate))
    as (rows & E & Hlen & Hitems & _).
  exists rows. auto.
Defined.

End SearchProps.

(** ** The URL that carries the page to scrape *)

Module UrlProps.
Import Js Effects Extractor Forms RelayMore.

Lemma hex_digit_unreserved (k : nat) :
  k < 16 -> is_unreserved (hex_digit k) = true.
Proof.
  intros Hk. do 16 (destruct k as [|k]; [reflexivity|]). lia.
Qed.

Lemma percent_chars (n : nat) (c : ascii) :
  n < 256 -> has_char c (percent n) = true ->
  is_unreserved c = true \/ c = ascii_of_nat 37.
Proof.
  intros Hn. unfold percent. cbn [has_char]. rewrite orb_false_r.
  intros Hc. apply orb_true_iff in Hc. destruct Hc as [Hc|Hc].
  - right. now apply Ascii.eqb_eq in Hc.
  - left. apply orb_true_iff in Hc.
    destruct Hc as [Hc|Hc]; apply Ascii.eqb_eq in Hc; subst c;
      apply hex_digit_unreserved.
    + apply Nat.Div0.div_lt_upper_bound. exact Hn.
    + apply Nat.mod_upper_bound. discriminate.
Qed.

Lemma encodeURIComponent_chars (s : string) (c : ascii) :
  has_char c (encodeURIComponent s) = true ->
  is_unreserved c = true \/ c = ascii_of_nat 37.
Proof.
  induction s as [|x s IH]; [discriminate|].
  cbn [encodeURIComponent]. cbv zeta. change String.append with append.
  rewrite has_char_app. intros Hc. apply orb_true_iff in Hc.
  destruct Hc as [Hc|Hc]; [|now apply IH].
  pose proof (nat_ascii_bounded x) as Hx.
  destruct (is_unreserved x) eqn:Hu.
  - cbn [has_char] in Hc. rewrite orb_false_r in Hc.
    apply Ascii.eqb_eq in Hc. subst c. now left.
  - destruct (nat_of_ascii x <? 128).
    + now apply (percent_chars (nat_of_ascii x)).
    + rewrite has_char_app in Hc. apply orb_true_iff in Hc.
      destruct Hc as [Hc|Hc].
      * apply (percent_chars (192 + nat_of_ascii x / 64)); [|exact Hc].
        assert (nat_of_ascii x / 64 < 4)
          by (apply Nat.Div0.div_lt_upper_bound; lia). lia.
      * apply (percent_chars (128 + nat_of_ascii x mod 64)); [|exact Hc].
        assert (nat_of_ascii x mod 64 < 64)
          by (apply Nat.mod_upper_bound; discriminate). lia.
Qed.

(** X21.  The page to scrape travels as one parameter.  The URL that the
    client asks the relay for, and the URL that the proxied variant asks
    the proxy for, are a fixed prefix followed by the encoded target, in
    which every character is unreserved or a percent sign: whatever the
    target, no ampersand, equals sign, question mark, number sign or slash
    of it can end the parameter or start another one. *)
Theorem target_is_one_parameter (url : string) :
  req_url (proxy_request url)
  = ("https://corsproxy.io/?" ++ encodeURIComponent url)%string /\
  (forall c, has_char c (encodeURIComponent url) = true ->
             is_unreserved c = true \/ c = ascii_of_nat 37) /\
  (forall c, In c (map ascii_of_nat [38; 61; 63; 35; 47; 43; 32]) ->
             has_char c (encodeURIComponent url) = false).
Proof.
  split; [reflexivity|]. split; [apply encodeURIComponent_chars|].
  intros c Hc. destruct (has_char c (encodeURIComponent url)) eqn:E;
    [|reflexivity].
  apply encodeURIComponent_chars in E. simpl in Hc.
  repeat (destruct Hc as [Hc|Hc];
          [subst c; destruct E as [E|E]; vm_compute in E; discriminate|]).
  destruct Hc.
Qed.

Lemma target_is_one_parameter_witness :
  has_char (ascii_of_nat 38) (encodeURIComponent "https://a.b/c?x=1&y=2#z")
  = false.
Proof.
  apply (proj2 (proj2 (target_is_one_parameter "https://a.b/c?x=1&y=2#z"))).
  simpl. auto.
Defined.

End UrlProps.

(** ** The debounced autocomplete *)

Module AutocompleteProps.
Import Js Effects Search Autocomplete.

Lemma fold_left_inv_In {S X : Type} (P : S -> Prop) (f : S -> X -> S)
  (l : list X) :
  (forall s x, In x l -> P s -> P (f s x)) ->
  forall s, P s -> P (fold_left f l s).
Proof.
  induction l as [|x l IH]; intros Hf s Hs; simpl; [exact Hs|].
  apply IH.
  - intros s' y Hy. apply Hf. now right.
  - apply Hf; [now left|exact Hs].
Qed.

Section WithBrowser.
Context `{Browser}.

Lemma asked_inputs (es : list BoxEvent) (b : Box) :
  List.length (asked (box_run es b)) + armed (box_run es b)
  <= List.length (asked b) + armed b + List.length (filter is_input es).
Proof.
  revert b. unfold box_run.
  induction es as [|e es IH]; intros b; simpl; [lia|].
  specialize (IH (box_step b e)).
  assert (Hstep : List.length (asked (box_step b e)) + armed (box_step b e)
                  <= List.length (asked b) + armed b
                     + (if is_input e then 1 else 0)).
  { destruct e as [v| |i]; simpl.
    - unfold input. destruct (String.length (trim v) <? 2); unfold armed;
        simpl; destruct (debounceTimer b); lia.
    - unfold timeout, armed. destruct (debounceTimer b) eqn:E; simpl;
        [rewrite length_app; simpl; lia|rewrite E; lia].
    - unfold answer, armed. destruct (nth_error (awaited b) i); simpl; lia. }
  destruct (is_input e); simpl in *; lia.
Qed.

Lemma asked_timeouts (es : list BoxEvent) (b : Box) :
  List.length (asked (box_run es b))
  <= List.length (asked b) + List.length (filter is_timeout es).
Proof.
  revert b. unfold box_run.
  induction es as [|e es IH]; intros b; simpl; [lia|].
  specialize (IH (box_step b e)).
  assert (Hstep : List.length (asked (box_step b e))
                  <= List.length (asked b)
                     + (if is_timeout e then 1 else 0)).
  { destruct e as [v| |i]; simpl.
    - unfold input. destruct (String.length (trim v) <? 2); simpl; lia.
    - unfold timeout. destruct (debounceTimer b); simpl;
        [rewrite length_app; simpl; lia|lia].
    - unfold answer. destruct (nth_error (awaited b) i); simpl; lia. }
  destruct (is_timeout e); simpl in *; lia.
Qed.

Lemma inputs_only (vs : list string) (b : Box) :
  asked (box_run (map Input vs) b) = asked b /\
  debounceTimer (box_run (map Input vs) b)
  = match rev vs with
    | [] => debounceTimer b
    | v :: _ =>
        if String.length (trim v) <? 2 then None else Some (trim v)
    end.
Proof.
  revert b. induction vs as [|v vs IH] using rev_ind; intros b;
    [split; reflexivity|].
  unfold box_run. rewrite map_app, fold_left_app, rev_app_distr. simpl.
  fold (box_run (map Input vs) b).
  destruct (IH b) as (Ha & _). unfold input.
  destruct (String.length (trim v) <? 2); simpl; auto.
Qed.

(** X22.  The autocomplete is debounced.  Whatever is typed and whenever
    the timer fires or an answer arrives, every search request of the
    autocomplete is for the trimmed value of some input event and has at
    least two characters; there are no more requests than input events,
    and no more than firings of the timer; in particular a burst of input
    events followed by one firing asks once at most, for the trimmed last
    value. *)
Theorem autocomplete_is_debounced (es : list BoxEvent) :
  (forall q, In q (asked (box_run es empty_box)) ->
     2 <= String.length q /\ exists v, In (Input v) es /\ q = trim v) /\
  List.length (asked (box_run es empty_box))
  <= List.length (filter is_input es) /\
  List.length (asked (box_run es empty_box))
  <= List.length (filter is_timeout es) /\
  (forall vs,
     asked (box_run (map Input vs ++ [Timeout]) empty_box)
     = match rev vs with
       | [] => []
       | v :: _ => if String.length (trim v) <? 2 then [] else [trim v]
       end).
Proof.
  split; [|split; [|split]].
  - set (good := fun q => 2 <= String.length q /\
                          exists v, In (Input v) es /\ q = trim v).
    assert (Hinv : (forall q, In q (asked (box_run es empty_box)) -> good q) /\
                   (forall q, debounceTimer (box_run es empty_box) = Some q ->
                              good q)).
    { unfold box_run.
      apply (fold_left_inv_In
               (fun b => (forall q, In q (asked b) -> good q) /\
                         (forall q, debounceTimer b = Some q -> good q))).
      - intros b e He (Ha & Ht). destruct e as [v| |i]; simpl.
        + unfold input.
          destruct (Nat.ltb_spec (String.length (trim v)) 2); simpl.
          * split; [exact Ha|discriminate].
          * split; [exact Ha|]. intros q [= <-]. split; [lia|].
            exists v. auto.
        + unfold timeout. destruct (debounceTimer b) as [q0|] eqn:E;
            simpl; [|split; [exact Ha|rewrite E; discriminate]].
          split; [|discriminate]. intros q Hq. apply in_app_or in Hq.
          destruct Hq as [Hq|[<-|[]]]; [now apply Ha|now apply Ht].
        + unfold answer. destruct (nth_error (awaited b) i); simpl; auto.
      - split; [intros q []|discriminate]. }
    apply Hinv.
  - pose proof (asked_inputs es empty_box) as Hi. simpl in Hi. lia.
  - pose proof (asked_timeouts es empty_box) as Ht. simpl in Ht. lia.
  - intros vs. unfold box_run. rewrite fold_left_app. simpl.
    fold (box_run (map Input vs) empty_box).
    destruct (inputs_only vs empty_box) as (Ha & Ht).
    unfold timeout. rewrite Ht.
    destruct (rev vs) as [|v l]; [exact Ha|].
    destruct (String.length (trim v) <? 2); simpl; rewrite ?Ha; reflexivity.
Qed.

End WithBrowser.

Lemma autocomplete_is_debounced_witness :
  2 <= String.length "inception".
Proof.
  apply (proj1 (@autocomplete_is_debounced Relay.relay_platform
                  answering_browser
                  [Input "i"; Input "in"; Input " inception "; Timeout])
               "inception").
  simpl. auto.
Defined.

End AutocompleteProps.
